(** * The Scrapy command-line dispatcher (scrapy/cmdline.py)

    A shallow embedding of [scrapy/cmdline.py]: command discovery, the
    extraction of the command name from [argv], the [UsageError] wrapper
    and the [execute] entry point.

    Python features are rendered as follows.
    - A dict used as a registry is a [gmap string _]; [d.update(e)] is
      [e ∪ d] (the union of stdpp keeps the left operand on a collision).
    - [raise] and [sys.exit] are the [Raise] outcome of a state and error
      monad; mutations made before the exception stay in the state.
    - The [Settings] object is shared and mutated in place: it lives in a
      heap and is passed around by reference.
    - Code of other modules ([walk_modules], [pkg_resources], [optparse],
      the [Settings] class, the command classes) is a parameter: the
      environment [Env], the interface [SettingsOps] and the method fields
      of [PyClass]. *)

From Stdlib Require Import ZArith String Ascii List Bool Lia.
From stdpp Require Import base strings gmap list sorting.

Local Open Scope string_scope.
Local Open Scope Z_scope.
Local Open Scope list_scope.

(** ** Exceptions and outcomes *)

(** The exceptions the dispatcher distinguishes. [UsageError msg ph] carries
    [str(e)] and [e.print_help]; [SystemExit code] is what [sys.exit(code)]
    raises; [Exception msg] is every other exception. *)
Inductive exn : Type :=
| UsageError (msg : string) (print_help : bool)
| SystemExit (code : Z)
| Exception (msg : string).

Inductive result (A : Type) : Type :=
| Ok (a : A)
| Raise (e : exn).

Arguments Ok {A} a.
Arguments Raise {A} e.

(** ** Strings *)

Definition nl : string := String "010"%char EmptyString.
Definition dq : string := String "034"%char EmptyString.

(** [arg.startswith('-')] *)
Definition startswith (s pre : string) : bool := String.prefix pre s.

(** [s.split(sep)] for a one-character separator: never empty. *)
Fixpoint split (sep : ascii) (s : string) : list string :=
  match s with
  | EmptyString => [EmptyString]
  | String c s' =>
      if Ascii.eqb c sep then EmptyString :: split sep s'
      else match split sep s' with
           | [] => [String c EmptyString]
           | w :: ws => String c w :: ws
           end
  end.

(** [s.split('.')[-1]] *)
Definition last_component (s : string) : string :=
  List.last (split "."%char s) EmptyString.

(** A string is held as the bytes of its UTF-8 encoding. A character starts
    at every byte that is not a continuation byte (a byte of the form
    [10xxxxxx]), so [char_length] is [len(s)], the number of characters. *)
Definition is_continuation (b : ascii) : bool :=
  match b with
  | Ascii _ _ _ _ _ _ b6 b7 => b7 && negb b6
  end.

Fixpoint char_length (s : string) : nat :=
  match s with
  | EmptyString => 0%nat
  | String b s' =>
      if is_continuation b then char_length s' else S (char_length s')
  end.

(** ["%-13s" % s]: left-justified in a field of 13 characters; the padding
    counts characters, not bytes. *)
Definition ljust13 (s : string) : string :=
  s +:+ String.concat "" (replicate (13 - char_length s)%nat " ").

(** ["%s" % v] for a value that is a string or [None]. *)
Definition str (v : option string) : string :=
  match v with Some s => s | None => "None" end.

(** Truth value of a string or [None]. *)
Definition truthy (v : option string) : bool :=
  match v with Some s => negb (String.eqb s "") | None => false end.

(** ** The Settings interface *)

(** The [Settings] class belongs to [scrapy.settings]; the dispatcher uses
    three of its operations. *)
Class SettingsOps (Settings : Type) : Type := {
  getitem : Settings -> string -> option string;   (* settings[key] *)
  setitem : Settings -> string -> string -> Settings; (* settings[key] = v *)
  setdict : Settings -> list (string * string) -> string -> Settings
                                                   (* setdict(d, priority) *)
}.

Abbreviation loc := nat (only parsing).

(** [CrawlerProcess(settings)] keeps a reference to the settings object. *)
Record CrawlerProcess : Type := { cp_settings : loc }.

(** Options returned by [parser.parse_args]; [profile] is [opts.profile]. *)
Record Opts : Type := {
  profile : option string;
  other_opts : list (string * string)
}.

Section Cmdline.

Context {Settings : Type} {settings_ops : SettingsOps Settings}.

(** ** Memory *)

(** What Python code can reach: the heap of [Settings] objects, standard
    output, the module [scrapy.conf] ([conf_imported]: it is in
    [sys.modules]; [conf_settings]: its attribute [settings], [None] when
    the module has no such attribute) and the attributes of the command
    object selected by [execute]. *)
Record Mem : Type := {
  heap : gmap loc Settings;
  stdout : list string;
  conf_imported : bool;
  conf_settings : option loc;
  cmd_settings : option loc;
  cmd_crawler_process : option CrawlerProcess;
  cmd_exitcode : Z
}.

(** ** Classes, modules, entry points *)

(** A class object. [cls_id] is its identity, [cls_module] its
    [__module__], [cls_mro] the identities of the classes it derives from
    (itself included). The remaining fields are the attributes and methods
    of the [ScrapyCommand] interface; a method acts on the memory and
    returns or raises. *)
Record PyClass : Type := {
  cls_id : nat;
  cls_module : string;
  cls_mro : list nat;
  requires_project : bool;
  default_settings : list (string * string);
  exitcode : Z;
  syntax : string;
  short_desc : string;
  long_desc : string;
  process_options : list string -> Opts -> Mem -> result unit * Mem;
  run : list string -> Opts -> Mem -> result unit * Mem
}.

(** Identity of the class [scrapy.commands.ScrapyCommand]. *)
Definition ScrapyCommand : nat := 0%nat.

(** [issubclass(obj, ScrapyCommand)] *)
Definition issubclass (obj : PyClass) (base : nat) : bool :=
  existsb (Nat.eqb base) (cls_mro obj).

(** [obj == ScrapyCommand]: classes compare by identity. *)
Definition class_eq (obj : PyClass) (other : nat) : bool :=
  Nat.eqb (cls_id obj) other.

(** A value bound in a module namespace or loaded from an entry point. *)
Inductive PyObj : Type :=
| ObjClass (c : PyClass)
| ObjOther (repr : string).

(** [inspect.isclass(obj)] *)
Definition isclass (obj : PyObj) : bool :=
  match obj with ObjClass _ => true | ObjOther _ => false end.

(** A module: [__name__] and [vars(module)] in iteration order. *)
Record Module : Type := {
  mod_name : string;
  mod_vars : list (string * PyObj)
}.

Record EntryPoint : Type := {
  ep_name : string;
  ep_load : PyObj
}.

(** The object [cmd()] creates. *)
Record Instance : Type := { inst_class : PyClass }.

Definition instantiate (cmd : PyClass) : Instance := {| inst_class := cmd |}.

(** The option parser of [optparse]: [p_error msg] and [p_print_help] tell
    whether [parser.error(msg)] and [parser.print_help()] return or raise;
    [p_parse_args cmd args] is [parser.parse_args(args)] after [cmd] has
    added its options. *)
Record Parser : Type := {
  p_error : string -> result unit;
  p_print_help : result unit;
  p_parse_args : PyClass -> list string -> result (Opts * list string)
}.

(** ** Environment *)

Record Env : Type := {
  walk_modules : string -> list Module;          (* scrapy.utils.misc *)
  iter_entry_points : string -> list EntryPoint; (* pkg_resources *)
  inside_project : bool;                         (* scrapy.utils.project *)
  get_project_settings : Settings;               (* scrapy.utils.project *)
  environ : gmap string string;                  (* os.environ *)
  sys_argv : list string;                        (* sys.argv *)
  scrapy_version : string;                       (* scrapy.__version__ *)
  OptionParser : Parser                          (* optparse.OptionParser(...) *)
}.

Variable env : Env.

(** ** Command discovery *)

(** The test of the inner loop of [_iter_command_classes]. *)
Definition is_command_class (module : Module) (obj : PyObj) : option PyClass :=
  match obj with
  | ObjClass c =>
      if issubclass c ScrapyCommand
         && String.eqb (cls_module c) (mod_name module)
         && negb (class_eq c ScrapyCommand)
      then Some c else None
  | ObjOther _ => None
  end.

(** The classes [_iter_command_classes(module_name)] yields, in order. *)
Definition _iter_command_classes (module_name : string) : list PyClass :=
  module ← walk_modules env module_name;
  omap (is_command_class module) (mod_vars module).*2.

(** [cmd.__module__.split('.')[-1]] *)
Definition cmdname_of (cmd : PyClass) : string := last_component (cls_module cmd).

(** The loop of [_get_commands_from_module] over the yielded classes. *)
Fixpoint commands_loop (inproject : bool) (classes : list PyClass)
    (d : gmap string Instance) : gmap string Instance :=
  match classes with
  | [] => d
  | cmd :: rest =>
      if inproject || negb (requires_project cmd)
      then commands_loop inproject rest (<[cmdname_of cmd := instantiate cmd]> d)
      else commands_loop inproject rest d
  end.

Definition _get_commands_from_module (module : string) (inproject : bool)
    : gmap string Instance :=
  commands_loop inproject (_iter_command_classes module) ∅.

(** The loop of [_get_commands_from_entry_points]. *)
Fixpoint entry_points_loop (eps : list EntryPoint) (cmds : gmap string Instance)
    : result (gmap string Instance) :=
  match eps with
  | [] => Ok cmds
  | entry_point :: rest =>
      match ep_load entry_point with
      | ObjClass obj =>
          entry_points_loop rest (<[ep_name entry_point := instantiate obj]> cmds)
      | ObjOther _ =>
          Raise (Exception ("Invalid entry point " +:+ ep_name entry_point))
      end
  end.

Definition _get_commands_from_entry_points_in (inproject : bool) (group : string)
    : result (gmap string Instance) :=
  entry_points_loop (iter_entry_points env group) ∅.

(** The default [group='scrapy.commands']. *)
Definition _get_commands_from_entry_points (inproject : bool)
    : result (gmap string Instance) :=
  _get_commands_from_entry_points_in inproject "scrapy.commands".

(** [cmds.update(other)] *)
Definition update (cmds other : gmap string Instance) : gmap string Instance :=
  other ∪ cmds.

(** [settings[key]] for a settings object on the heap. *)
Definition settings_get (m : Mem) (settings : loc) (key : string) : option string :=
  heap m !! settings ≫= fun s => getitem s key.

Definition _get_commands_dict (m : Mem) (settings : loc) (inproject : bool)
    : result (gmap string Instance) :=
  let cmds := _get_commands_from_module "scrapy.commands" inproject in
  match _get_commands_from_entry_points inproject with
  | Raise e => Raise e
  | Ok eps =>
      let cmds := update cmds eps in
      let cmds_module := settings_get m settings "COMMANDS_MODULE" in
      if truthy cmds_module
      then Ok (update cmds (_get_commands_from_module (str cmds_module) inproject))
      else Ok cmds
  end.

(** ** The command name *)

(** The loop of [_pop_command_name]: [rest] is what remains of the copy
    [argv[1:]], [i] the counter. *)
Fixpoint pop_loop (argv rest : list string) (i : nat) : option string * list string :=
  match rest with
  | [] => (None, argv)
  | arg :: rest' =>
      if negb (startswith arg "-") then (Some arg, delete i argv)
      else pop_loop argv rest' (S i)
  end.

(** The value returned and [argv] after the call. *)
Definition _pop_command_name (argv : list string) : option string * list string :=
  pop_loop argv (drop 1 argv) 0%nat.

(** ** State and effects *)

(** What [execute] and its helpers do to the outside, in order. Calls of
    code of other modules are recorded here; the memory holds their
    results. *)
Inductive Event : Type :=
| CheckDeprecatedSettings (settings : loc)
| ImportConf
| SetParserUsage (usage : string)
| SetParserDescription (description : string)
| CallSetdict (settings : loc) (d : list (string * string)) (priority : string)
| SetCmdSettings (settings : loc)
| CallAddOptions
| CallParseArgs (args : list string)
| CallProcessOptions (args : list string) (opts : Opts)
| SetCmdCrawlerProcess (cp : CrawlerProcess)
| CallRun (args : list string) (opts : Opts)
| StderrProfile (file : string)
| DumpStats (file : string)
| CallParserError (msg : string)
| CallPrintHelp.

Record State : Type := {
  mem : Mem;
  log : list Event
}.

(** State and exceptions. *)
Definition M (A : Type) : Type := State -> result A * State.

Definition ret {A : Type} (a : A) : M A := fun s => (Ok a, s).

Definition bind {A B : Type} (m : M A) (k : A -> M B) : M B :=
  fun s => match m s with
           | (Ok a, s') => k a s'
           | (Raise e, s') => (Raise e, s')
           end.

Definition raise {A : Type} (e : exn) : M A := fun s => (Raise e, s).

Notation "x <- m ;; k" := (bind m (fun x => k))
  (at level 100, m at next level, right associativity).
Notation "m ;; k" := (bind m (fun _ => k))
  (at level 100, right associativity).

(** [sys.exit(code)] *)
Definition sys_exit {A : Type} (code : Z) : M A := raise (SystemExit code).

Definition emit (e : Event) : M unit :=
  fun s => (Ok tt, {| mem := mem s; log := log s ++ [e] |}).

Definition get_mem : M Mem := fun s => (Ok (mem s), s).

Definition modify_mem (f : Mem -> Mem) : M unit :=
  fun s => (Ok tt, {| mem := f (mem s); log := log s |}).

(** The outcome of a call whose effect is not modelled. *)
Definition outcome {A : Type} (r : result A) : M A := fun s => (r, s).

(** A method of a command object, run on the memory. *)
Definition call (method : Mem -> result unit * Mem) : M unit :=
  fun s => let '(r, m) := method (mem s) in (r, {| mem := m; log := log s |}).

Definition set_stdout (out : list string) (m : Mem) : Mem :=
  {| heap := heap m; stdout := out; conf_imported := conf_imported m;
     conf_settings := conf_settings m; cmd_settings := cmd_settings m;
     cmd_crawler_process := cmd_crawler_process m; cmd_exitcode := cmd_exitcode m |}.

Definition set_heap (h : gmap loc Settings) (m : Mem) : Mem :=
  {| heap := h; stdout := stdout m; conf_imported := conf_imported m;
     conf_settings := conf_settings m; cmd_settings := cmd_settings m;
     cmd_crawler_process := cmd_crawler_process m; cmd_exitcode := cmd_exitcode m |}.

Definition set_conf (imported : bool) (settings : option loc) (m : Mem) : Mem :=
  {| heap := heap m; stdout := stdout m; conf_imported := imported;
     conf_settings := settings; cmd_settings := cmd_settings m;
     cmd_crawler_process := cmd_crawler_process m; cmd_exitcode := cmd_exitcode m |}.

Definition set_cmd (settings : option loc) (cp : option CrawlerProcess)
    (code : Z) (m : Mem) : Mem :=
  {| heap := heap m; stdout := stdout m; conf_imported := conf_imported m;
     conf_settings := conf_settings m; cmd_settings := settings;
     cmd_crawler_process := cp; cmd_exitcode := code |}.

(** [print(line)] *)
Definition print (line : string) : M unit :=
  modify_mem (fun m => set_stdout (stdout m ++ [line]) m).

(** A new [Settings] object. *)
Definition alloc (v : Settings) : M loc :=
  fun s => let l := fresh (dom (heap (mem s))) in
           (Ok l, {| mem := set_heap (<[l := v]> (heap (mem s))) (mem s); log := log s |}).

(** In-place update of the object at [l]. *)
Definition mutate (l : loc) (f : Settings -> Settings) : M unit :=
  modify_mem (fun m => set_heap (alter f l (heap m)) m).

(** ** Messages *)

Definition _print_header (settings : loc) (inproject : bool) : M unit :=
  if inproject then
    m <- get_mem ;;
    print ("Scrapy " +:+ scrapy_version env +:+ " - project: "
           +:+ str (settings_get m settings "BOT_NAME") +:+ nl)
  else
    print ("Scrapy " +:+ scrapy_version env +:+ " - no active project" +:+ nl).

(** [sorted(cmds.items())]: the names are distinct, so the order is that
    of the names. *)
Definition name_le (x y : string * Instance) : Prop :=
  String.leb (fst x) (fst y) = true.

#[local] Instance name_le_dec (x y : string * Instance) : Decision (name_le x y) :=
  bool_eq_dec _ _.

Definition sorted_items (cmds : gmap string Instance) : list (string * Instance) :=
  merge_sort name_le (map_to_list cmds).

Fixpoint print_command_lines (items : list (string * Instance)) : M unit :=
  match items with
  | [] => ret tt
  | (cmdname, cmdclass) :: rest =>
      print ("  " +:+ ljust13 cmdname +:+ " " +:+ short_desc (inst_class cmdclass)) ;;
      print_command_lines rest
  end.

Definition _print_commands (settings : loc) (inproject : bool) : M unit :=
  _print_header settings inproject ;;
  print "Usage:" ;;
  print ("  scrapy <command> [options] [args]" +:+ nl) ;;
  print "Available commands:" ;;
  m <- get_mem ;;
  cmds <- outcome (_get_commands_dict m settings inproject) ;;
  print_command_lines (sorted_items cmds) ;;
  (if negb inproject then
     print "" ;;
     print "  [ more ]      More commands available when run from project directory"
   else ret tt) ;;
  print "" ;;
  print ("Use " +:+ dq +:+ "scrapy <command> -h" +:+ dq
         +:+ " to see more info about a command").

Definition _print_unknown_command (settings : loc) (cmdname : string)
    (inproject : bool) : M unit :=
  _print_header settings inproject ;;
  print ("Unknown command: " +:+ cmdname +:+ nl) ;;
  print ("Use " +:+ dq +:+ "scrapy" +:+ dq +:+ " to see available commands").

(** ** The UsageError wrapper *)

Definition parser_error (parser : Parser) (msg : string) : M unit :=
  emit (CallParserError msg) ;; outcome (p_error parser msg).

Definition parser_print_help (parser : Parser) : M unit :=
  emit CallPrintHelp ;; outcome (p_print_help parser).

(** The [except UsageError as e] branch of [_run_print_help]: [e_str] is
    [str(e)], [e_print_help] is [e.print_help]. *)
Definition handle_usage_error (parser : Parser) (e_str : string)
    (e_print_help : bool) : M unit :=
  (if negb (String.eqb e_str "") then parser_error parser e_str else ret tt) ;;
  (if e_print_help then parser_print_help parser else ret tt) ;;
  sys_exit 2.

(** [_run_print_help]: [func] stands for the call of the wrapped function
    on the arguments passed along. *)
Definition _run_print_help (parser : Parser) (func : M unit) : M unit :=
  fun s =>
    match func s with
    | (Raise (UsageError e_str e_print_help), s') =>
        handle_usage_error parser e_str e_print_help s'
    | other => other
    end.

(** ** Running a command *)

Definition cmd_run (cmd : Instance) (args : list string) (opts : Opts) : M unit :=
  emit (CallRun args opts) ;; call (run (inst_class cmd) args opts).

Definition cmd_process_options (cmd : Instance) (args : list string) (opts : Opts)
    : M unit :=
  emit (CallProcessOptions args opts) ;; call (process_options (inst_class cmd) args opts).

Definition _run_command_profiled (cmd : Instance) (args : list string) (opts : Opts)
    : M unit :=
  (if truthy (profile opts) then emit (StderrProfile (str (profile opts))) else ret tt) ;;
  cmd_run cmd args opts ;;
  (if truthy (profile opts) then emit (DumpStats (str (profile opts))) else ret tt).

Definition _run_command (cmd : Instance) (args : list string) (opts : Opts) : M unit :=
  if truthy (profile opts) then _run_command_profiled cmd args opts
  else cmd_run cmd args opts.

(** ** The entry point *)

(** Lines 110-116: the singleton [scrapy.conf.settings], when [settings] is
    [None] and the module is loaded and has the attribute. *)
Definition settings_from_conf (settings : option loc) : M (option loc) :=
  match settings with
  | Some l => ret (Some l)
  | None =>
      m <- get_mem ;;
      if conf_imported m then
        match conf_settings m with
        | Some l => ret (Some l)
        | None => ret None
        end
      else ret None
  end.

(** Lines 118-125: the project settings, with [EDITOR] from the
    environment. *)
Definition settings_from_project (settings : option loc) : M loc :=
  match settings with
  | Some l => ret l
  | None =>
      l <- alloc (get_project_settings env) ;;
      match environ env !! "EDITOR" with
      | None => ret l
      | Some editor => mutate l (fun s => setitem s "EDITOR" editor) ;; ret l
      end
  end.

(** Lines 128-135: [from scrapy import conf; conf.settings = settings]. *)
Definition publish_settings (settings : loc) : M unit :=
  emit ImportConf ;;
  modify_mem (set_conf true (Some settings)).

(** Lines 149-155, for the command found in the registry. The attributes
    of the new command object start from their class defaults. *)
Definition prepare_command (settings : loc) (cmdname : string) (cmd : Instance)
    : M unit :=
  modify_mem (set_cmd None None (exitcode (inst_class cmd))) ;;
  emit (SetParserUsage ("scrapy " +:+ cmdname +:+ " " +:+ syntax (inst_class cmd))) ;;
  emit (SetParserDescription (long_desc (inst_class cmd))) ;;
  emit (CallSetdict settings (default_settings (inst_class cmd)) "command") ;;
  mutate settings (fun s => setdict s (default_settings (inst_class cmd)) "command") ;;
  emit (SetCmdSettings settings) ;;
  modify_mem (fun m => set_cmd (Some settings) (cmd_crawler_process m) (cmd_exitcode m) m) ;;
  emit CallAddOptions.

(** Lines 156-164. *)
Definition run_prepared (settings : loc) (parser : Parser) (cmd : Instance)
    (argv : list string) : M unit :=
  emit (CallParseArgs (drop 1 argv)) ;;
  parsed <- outcome (p_parse_args parser (inst_class cmd) (drop 1 argv)) ;;
  let '(opts, args) := parsed in
  _run_print_help parser (cmd_process_options cmd args opts) ;;
  emit (SetCmdCrawlerProcess {| cp_settings := settings |}) ;;
  modify_mem (fun m => set_cmd (cmd_settings m) (Some {| cp_settings := settings |})
                               (cmd_exitcode m) m) ;;
  _run_print_help parser (_run_command cmd args opts) ;;
  m <- get_mem ;;
  sys_exit (cmd_exitcode m).

Definition run_selected (settings : loc) (parser : Parser) (cmdname : string)
    (cmd : Instance) (argv : list string) : M unit :=
  prepare_command settings cmdname cmd ;;
  run_prepared settings parser cmd argv.

(** Lines 137-147: the registry, the command name and the two early
    exits. *)
Definition dispatch (settings : loc) (argv : list string) : M unit :=
  let inproject := inside_project env in
  m <- get_mem ;;
  cmds <- outcome (_get_commands_dict m settings inproject) ;;
  let '(cmdname, argv) := _pop_command_name argv in
  let parser := OptionParser env in
  if negb (truthy cmdname) then
    _print_commands settings inproject ;; sys_exit 0
  else
    match cmds !! str cmdname with
    | None => _print_unknown_command settings (str cmdname) inproject ;; sys_exit 2
    | Some cmd => run_selected settings parser (str cmdname) cmd argv
    end.

(** Lines 110-135. *)
Definition resolve_settings (settings : option loc) : M loc :=
  settings <- settings_from_conf settings ;;
  settings <- settings_from_project settings ;;
  emit (CheckDeprecatedSettings settings) ;;
  publish_settings settings ;;
  ret settings.

Definition execute (argv : option (list string)) (settings : option loc) : M unit :=
  let argv := default (sys_argv env) argv in
  settings <- resolve_settings settings ;;
  dispatch settings argv.

End Cmdline.

Arguments Mem Settings : clear implicits.
Arguments PyClass Settings : clear implicits.
Arguments PyObj Settings : clear implicits.
Arguments Module Settings : clear implicits.
Arguments EntryPoint Settings : clear implicits.
Arguments Instance Settings : clear implicits.
Arguments Parser Settings : clear implicits.
Arguments Env Settings : clear implicits.
Arguments State Settings : clear implicits.
Arguments M Settings A : clear implicits.

(** * The request queue of the scheduling core *)

Module Scheduler.

(** Modelled from the spec: the request of the scheduling core (data model,
    section 3), which is not among the source files. [fingerprint] is the
    cached hash that identifies the request for deduplication. *)
Record Request : Type := {
  url : string;
  method : string;
  priority : Z;
  partition_key : string;
  fingerprint : string;
  dont_filter : bool
}.

(** Modelled from the spec: a queue entry is a request with its enqueue
    sequence number (section 3); the scheduler is not among the source
    files. *)
Record QueueEntry : Type := {
  request : Request;
  seq : nat
}.

(** Modelled from the spec: the request queue (section 4.1) with the
    deduplication record it consults (sections 3 and 4.2), which are not
    among the source files. [entries] is kept in pop order. *)
Record Queue : Type := {
  entries : list QueueEntry;
  next_seq : nat;
  seen : gset string
}.

Definition empty : Queue := {| entries := []; next_seq := 0; seen := ∅ |}.

(** Modelled from the spec: the order of section 4.1, priority descending,
    then sequence ascending. *)
Definition before (x y : QueueEntry) : bool :=
  (priority (request y) <? priority (request x))
  || ((priority (request x) =? priority (request y)) && (seq x <? seq y)%nat).

(** Modelled from the spec: ordered insertion for [push] (section 4.1). *)
Fixpoint insert_entry (e : QueueEntry) (l : list QueueEntry) : list QueueEntry :=
  match l with
  | [] => [e]
  | x :: l' => if before x e then x :: insert_entry e l' else e :: l
  end.

(** Modelled from the spec: [push(request)] of section 4.1. A request whose
    fingerprint is recorded is dropped unless [dont_filter] is set; the
    record holds the fingerprints of the requests already scheduled
    (section 2), and a request with [dont_filter] is never recorded
    (section 4.2). *)
Definition push (r : Request) (q : Queue) : Queue :=
  if dont_filter r then
    {| entries := insert_entry {| request := r; seq := next_seq q |} (entries q);
       next_seq := S (next_seq q);
       seen := seen q |}
  else if decide (fingerprint r ∈ seen q) then q
  else
    {| entries := insert_entry {| request := r; seq := next_seq q |} (entries q);
       next_seq := S (next_seq q);
       seen := {[fingerprint r]} ∪ seen q |}.

(** Modelled from the spec: the scan of [pop_ready] (section 4.1): the
    first entry in queue order whose partition key is eligible; the entries
    skipped stay in place. *)
Fixpoint take_ready (is_eligible : string -> bool) (l : list QueueEntry)
    : option (QueueEntry * list QueueEntry) :=
  match l with
  | [] => None
  | x :: l' =>
      if is_eligible (partition_key (request x)) then Some (x, l')
      else match take_ready is_eligible l' with
           | Some (y, rest) => Some (y, x :: rest)
           | None => None
           end
  end.

(** Modelled from the spec: [pop_ready(is_eligible)] of section 4.1. *)
Definition pop_ready (is_eligible : string -> bool) (q : Queue)
    : option Request * Queue :=
  match take_ready is_eligible (entries q) with
  | Some (x, rest) =>
      (Some (request x), {| entries := rest; next_seq := next_seq q; seen := seen q |})
  | None => (None, q)
  end.

(** Modelled from the spec: [is_empty()] of section 4.1. *)
Definition is_empty (q : Queue) : bool :=
  match entries q with [] => true | _ :: _ => false end.

(** Modelled from the spec: an unlimited throttle (section 4.3) makes every
    partition key eligible. *)
Definition unlimited (key : string) : bool := true.

(** The requests popped by [n] calls of [pop_ready]. *)
Fixpoint pop_all (is_eligible : string -> bool) (n : nat) (q : Queue)
    : list Request * Queue :=
  match n with
  | O => ([], q)
  | S n' =>
      match pop_ready is_eligible q with
      | (Some r, q') => let '(rs, q'') := pop_all is_eligible n' q' in (r :: rs, q'')
      | (None, q') => ([], q')
      end
  end.

End Scheduler.

(** * A small installation *)

(** Concrete classes, modules, entry points and a parser, on which the
    functions above can be evaluated. *)

(** A [Settings] class without priorities: a dictionary. *)
#[export] Instance dict_settings : SettingsOps (gmap string string) := {
  getitem d key := d !! key;
  setitem d key v := <[key := v]> d;
  setdict d items priority := list_to_map items ∪ d
}.

Abbreviation Dict := (gmap string string) (only parsing).

(** A method that returns at once, and one that raises. *)
Definition returns (m : Mem Dict) : result unit * Mem Dict := (Ok tt, m).

Definition raises (e : exn) (m : Mem Dict) : result unit * Mem Dict := (Raise e, m).

(** A method that sets [self.exitcode]. *)
Definition sets_exitcode (code : Z) (m : Mem Dict) : result unit * Mem Dict :=
  (Ok tt, set_cmd (cmd_settings m) (cmd_crawler_process m) code m).

(** A subclass of [ScrapyCommand] defined in [module]. *)
Definition command (id : nat) (module : string) (needs_project : bool)
    (on_options on_run : Mem Dict -> result unit * Mem Dict) : PyClass Dict :=
  {| cls_id := id; cls_module := module; cls_mro := [id; ScrapyCommand];
     requires_project := needs_project;
     default_settings := [("LOG_ENABLED", "False")];
     exitcode := 0;
     syntax := "[options]"; short_desc := "A command"; long_desc := "A command";
     process_options := fun _ _ => on_options;
     run := fun _ _ => on_run |}.

(** The base class itself, as the module [scrapy.commands] holds it. *)
Definition base_class : PyClass Dict :=
  {| cls_id := ScrapyCommand; cls_module := "scrapy.commands";
     cls_mro := [ScrapyCommand];
     requires_project := false; default_settings := []; exitcode := 0;
     syntax := ""; short_desc := ""; long_desc := "";
     process_options := fun _ _ => returns; run := fun _ _ => returns |}.

Definition crawl_class : PyClass Dict :=
  command 1 "scrapy.commands.crawl" true returns (sets_exitcode 3).

Definition version_class : PyClass Dict :=
  command 2 "scrapy.commands.version" false returns returns.

(** Its [process_options] rejects the arguments. *)
Definition check_class : PyClass Dict :=
  command 3 "scrapy.commands.check" false
          (raises (UsageError "Invalid -a value, use -a NAME=VALUE" true)) returns.

(** Two command classes defined in one module. *)
Definition bench_class : PyClass Dict :=
  command 4 "scrapy.commands.bench" false returns returns.

Definition bench_helper_class : PyClass Dict :=
  command 5 "scrapy.commands.bench" false returns returns.

Definition plugin_class : PyClass Dict :=
  command 6 "myplugin.commands" false returns returns.

(** The package [scrapy.commands]: the module [version] also imports the
    class of [crawl]. *)
Definition builtin_modules : list (Module Dict) :=
  [ {| mod_name := "scrapy.commands";
       mod_vars := [("ScrapyCommand", ObjClass base_class);
                    ("__doc__", ObjOther "Base class for Scrapy commands")] |};
    {| mod_name := "scrapy.commands.crawl";
       mod_vars := [("ScrapyCommand", ObjClass base_class);
                    ("Command", ObjClass crawl_class)] |};
    {| mod_name := "scrapy.commands.version";
       mod_vars := [("CrawlCommand", ObjClass crawl_class);
                    ("Command", ObjClass version_class)] |};
    {| mod_name := "scrapy.commands.check";
       mod_vars := [("Command", ObjClass check_class)] |} ].

Definition bench_modules : list (Module Dict) :=
  [ {| mod_name := "scrapy.commands.bench";
       mod_vars := [("Command", ObjClass bench_class);
                    ("_BenchServer", ObjClass bench_helper_class)] |} ].

(** A parser that behaves as [optparse.OptionParser]: [error] exits with
    status 2, [parse_args] exits with status 0 on [-h] and otherwise finds
    no option. *)
Definition optparse_parser : Parser Dict :=
  {| p_error := fun _ => Raise (SystemExit 2);
     p_print_help := Ok tt;
     p_parse_args := fun _ args =>
       if bool_decide ("-h" ∈ args) then Raise (SystemExit 0)
       else Ok ({| profile := None; other_opts := [] |}, args) |}.

(** A parser whose [error] only reports. *)
Definition reporting_parser : Parser Dict :=
  {| p_error := fun _ => Ok tt;
     p_print_help := Ok tt;
     p_parse_args := fun _ args => Ok ({| profile := None; other_opts := [] |}, args) |}.

(** A project command that shadows the built-in [crawl]. *)
Definition project_crawl_class : PyClass Dict :=
  command 7 "mybot.commands.crawl" true returns returns.

Definition project_modules : list (Module Dict) :=
  [ {| mod_name := "mybot.commands.crawl";
       mod_vars := [("Command", ObjClass project_crawl_class)] |} ].

(** An installation: the modules of [scrapy.commands], those of the
    project package [mybot.commands] and the registered entry points. *)
Definition installation (modules project : list (Module Dict))
    (entry_points : list (EntryPoint Dict)) : Env Dict :=
  {| walk_modules := fun name =>
       if String.eqb name "scrapy.commands" then modules
       else if String.eqb name "mybot.commands" then project
       else [];
     iter_entry_points := fun group =>
       if String.eqb group "scrapy.commands" then entry_points else [];
     inside_project := true;
     get_project_settings :=
       {[ "BOT_NAME" := "mybot"; "COMMANDS_MODULE" := "mybot.commands" ]};
     environ := {[ "EDITOR" := "vi" ]};
     sys_argv := ["scrapy"];
     scrapy_version := "1.0";
     OptionParser := optparse_parser |}.

Definition good_entry_point : EntryPoint Dict :=
  {| ep_name := "plugin"; ep_load := ObjClass plugin_class |}.

Definition bad_entry_point : EntryPoint Dict :=
  {| ep_name := "broken"; ep_load := ObjOther "<function main>" |}.

(** A fresh process: nothing printed, [scrapy.conf] not imported. *)
Definition fresh_mem : Mem Dict :=
  {| heap := ∅; stdout := []; conf_imported := false; conf_settings := None;
     cmd_settings := None; cmd_crawler_process := None; cmd_exitcode := 0 |}.

Definition fresh_state : State Dict := {| mem := fresh_mem; log := [] |}.

(** The usual installation: built-in commands, one plugin, no project
    commands; and one with a broken entry point. *)
Definition plain_env : Env Dict := installation builtin_modules [] [good_entry_point].

Definition project_env : Env Dict :=
  installation builtin_modules project_modules [good_entry_point].

Definition broken_env : Env Dict :=
  installation builtin_modules [] [good_entry_point; bad_entry_point].

Definition bench_env : Env Dict := installation bench_modules [] [].

(** The state once [execute] has resolved the settings of a fresh process;
    it is the same in each of these installations, which share their
    project settings and environment. *)
Definition resolved_state : State Dict :=
  snd (resolve_settings plain_env None fresh_state).

(** The registry of the usual installation. *)
Definition plain_registry : gmap string (Instance Dict) :=
  match _get_commands_dict plain_env (mem resolved_state) 0%nat true with
  | Ok cmds => cmds
  | Raise _ => ∅
  end.

(** The package [scrapy.commands] with one more module, which imports the
    class of the plugin; no walked module defines that class. *)
Definition shell_module : Module Dict :=
  {| mod_name := "scrapy.commands.shell";
     mod_vars := [("PluginCommand", ObjClass plugin_class);
                  ("__doc__", ObjOther "Interactive console")] |}.

Definition imports_env : Env Dict :=
  installation (builtin_modules ++ [shell_module]) [] [].

(** The module [scrapy.commands.version] of the usual installation. *)
Definition version_module : Module Dict :=
  {| mod_name := "scrapy.commands.version";
     mod_vars := [("CrawlCommand", ObjClass crawl_class);
                  ("Command", ObjClass version_class)] |}.

(** A command name with a character outside ASCII: [caf] and the two bytes
    of [U+00E9]. *)
Definition cafe : string := "caf" +:+ String "195"%char (String "169"%char "").

(** Three requests for the queue. *)
Definition request_A : Scheduler.Request :=
  {| Scheduler.url := "http://a.example/"; Scheduler.method := "GET";
     Scheduler.priority := 5; Scheduler.partition_key := "a.example";
     Scheduler.fingerprint := "fp-a"; Scheduler.dont_filter := false |}.

Definition request_B : Scheduler.Request :=
  {| Scheduler.url := "http://b.example/"; Scheduler.method := "GET";
     Scheduler.priority := 1; Scheduler.partition_key := "b.example";
     Scheduler.fingerprint := "fp-b"; Scheduler.dont_filter := false |}.

Definition request_C : Scheduler.Request :=
  {| Scheduler.url := "http://c.example/"; Scheduler.method := "GET";
     Scheduler.priority := 5; Scheduler.partition_key := "c.example";
     Scheduler.fingerprint := "fp-c"; Scheduler.dont_filter := false |}.

(** * Properties *)

Section Discovery.

Context {Settings : Type} {settings_ops : SettingsOps Settings}.
Variable env : Env Settings.

(** ** [_pop_command_name] *)

Definition is_flag (arg : string) : Prop := startswith arg "-" = true.

#[local] Instance is_flag_dec (arg : string) : Decision (is_flag arg) :=
  bool_eq_dec _ _.

Lemma pop_loop_find (argv rest : list string) (i : nat) :
  pop_loop argv rest i =
  match list_find (fun a => ¬ is_flag a) rest with
  | Some (j, arg) => (Some arg, delete (i + j)%nat argv)
  | None => (None, argv)
  end.
Proof.
  revert i. induction rest as [|arg rest IH]; intros i; simpl; [done|].
  case_decide as Hflag.
  - assert (startswith arg "-" = false) as ->.
    { unfold is_flag in Hflag. by destruct (startswith arg "-"). }
    simpl. by rewrite Nat.add_0_r.
  - assert (startswith arg "-" = true) as ->.
    { exact Hflag. }
    simpl. rewrite IH. destruct (list_find _ rest) as [[j a]|]; simpl; [|done].
    do 2 f_equal. lia.
Qed.

(** C9. [_pop_command_name(argv)] returns the first element of [argv[1:]]
    that does not start with ['-'], and [None] exactly when every element
    after [argv[0]] starts with ['-'] (in particular when [argv] has at most
    one element). When the value returned stands at position [i+1], the
    element at position [i] is deleted: [argv[0]] when [i = 0], else the
    last flag before the command; [argv] loses exactly one element. When
    [None] is returned [argv] is unchanged. *)
Theorem pop_command_name_spec (argv : list string) :
  (fst (_pop_command_name argv) = None
   ↔ (length argv ≤ 1)%nat ∨ Forall is_flag (drop 1 argv))
  ∧ match _pop_command_name argv with
    | (Some arg, argv') =>
        ∃ i : nat,
          argv !! S i = Some arg
          ∧ startswith arg "-" = false
          ∧ (∀ j a, (1 ≤ j ≤ i)%nat → argv !! j = Some a → is_flag a)
          ∧ argv' = delete i argv
          ∧ S (length argv') = length argv
          ∧ (i = 0%nat ∨ ∃ flag, argv !! i = Some flag ∧ is_flag flag)
    | (None, argv') => argv' = argv
    end.
Proof.
  unfold _pop_command_name. rewrite pop_loop_find. simpl.
  destruct (list_find _ (drop 1 argv)) as [[j arg]|] eqn:Hfind; simpl.
  - apply list_find_Some in Hfind as (Hj & Harg & Hbefore).
    rewrite lookup_drop in Hj. simpl in Hj.
    assert (Hflags : ∀ k a, (1 ≤ k ≤ j)%nat → argv !! k = Some a → is_flag a).
    { intros k a [Hk1 Hkj] Hk. destruct k as [|k]; [lia|].
      destruct (decide (is_flag a)) as [|Hn]; [done|].
      exfalso. apply (Hbefore k a); [by rewrite lookup_drop|lia|done]. }
    split.
    + split; [done|]. intros [Hlen|Hall].
      * apply lookup_lt_Some in Hj. lia.
      * exfalso. apply Harg. rewrite Forall_lookup in Hall.
        apply (Hall j). by rewrite lookup_drop.
    + exists j. split_and!; try done.
      * unfold is_flag in Harg. by destruct (startswith arg "-").
      * apply lookup_lt_Some in Hj. rewrite length_delete; [lia|].
        apply lookup_lt_is_Some. lia.
      * destruct j as [|j]; [by left|right].
        destruct (lookup_lt_is_Some_2 argv (S j)) as [flag Hflag].
        { apply lookup_lt_Some in Hj. lia. }
        exists flag. split; [done|]. apply (Hflags (S j)); [lia|done].
  - split; [|done]. split; [|done]. intros _. right.
    apply list_find_None in Hfind.
    eapply Forall_impl; [exact Hfind|]. intros a Ha. simpl in Ha.
    by destruct (decide (is_flag a)).
Qed.

(** ** [_iter_command_classes] *)

Lemma is_command_class_Some (module : Module Settings) (obj : PyObj Settings)
    (c : PyClass Settings) :
  is_command_class module obj = Some c
  ↔ obj = ObjClass c
    ∧ issubclass c ScrapyCommand = true
    ∧ cls_module c = mod_name module
    ∧ class_eq c ScrapyCommand = false.
Proof.
  unfold is_command_class.
  destruct obj as [c'|repr]; [|split; [intros [=]|intros [[=] _]]].
  destruct (String.eqb (cls_module c') (mod_name module)) eqn:Hmod;
    [apply String.eqb_eq in Hmod | apply String.eqb_neq in Hmod];
    destruct (issubclass c' ScrapyCommand) eqn:Hsub;
    destruct (class_eq c' ScrapyCommand) eqn:Hid; simpl;
    (split; [intros [= <-]; done | intros (Hobj & ? & ? & ?); simplify_eq; congruence]).
Qed.

(** ** [_get_commands_from_module] *)

Lemma filter_none {A : Type} (P : A → Prop) `{∀ x, Decision (P x)} (l : list A) :
  (∀ x, x ∈ l → ¬ P x) → filter P l = [].
Proof.
  induction l as [|x l IH]; intros Hl; [done|].
  rewrite filter_cons_False by (apply Hl; left).
  apply IH. intros y Hy. apply Hl. by right.
Qed.

(** The test [inproject or not cmd.requires_project]. *)
Definition accepted (inproject : bool) (cmd : PyClass Settings) : bool :=
  inproject || negb (requires_project cmd).

Definition stored_under (inproject : bool) (k : string) (cmd : PyClass Settings) : Prop :=
  accepted inproject cmd = true ∧ cmdname_of cmd = k.

#[local] Instance stored_under_dec inproject k cmd : Decision (stored_under inproject k cmd).
Proof. unfold stored_under. apply _. Defined.

Lemma commands_loop_lookup (inproject : bool) (classes : list (PyClass Settings))
    (d : gmap string (Instance Settings)) (k : string) :
  commands_loop inproject classes d !! k =
  match last (filter (stored_under inproject k) classes) with
  | Some c => Some (instantiate c)
  | None => d !! k
  end.
Proof.
  revert d. induction classes as [|c classes IH]; intros d; simpl; [done|].
  fold (accepted inproject c). rewrite filter_cons.
  destruct (accepted inproject c) eqn:Hacc.
  - rewrite IH. case_decide as Hst.
    + destruct Hst as [_ <-]. rewrite last_cons.
      destruct (last _); [done|]. by rewrite lookup_insert_eq.
    + destruct (last _); [done|]. rewrite lookup_insert_ne; [done|].
      intros Hk. apply Hst. by split.
  - rewrite IH. case_decide as Hst; [|done].
    destruct Hst as [Hst _]. congruence.
Qed.

(** C10, as the code has it. [_iter_command_classes(module_name)] yields
    exactly the objects of the walked modules that are classes, derive from
    [ScrapyCommand], are not [ScrapyCommand] itself and whose [__module__]
    is the name of the module they are found in. So a walked module never
    makes a class it has only imported be yielded: a class is yielded only
    from a walked module that defines it, and a class that every walked
    module holding it has only imported is never yielded and has no
    instance in the registry of [_get_commands_from_module]. *)
Theorem iter_command_classes_spec (module_name : string) (c : PyClass Settings) :
  (c ∈ _iter_command_classes env module_name
   ↔ ∃ module,
       module ∈ walk_modules env module_name
       ∧ ObjClass c ∈ (mod_vars module).*2
       ∧ issubclass c ScrapyCommand = true
       ∧ class_eq c ScrapyCommand = false
       ∧ cls_module c = mod_name module)
  ∧ ((∀ module,
        module ∈ walk_modules env module_name →
        ObjClass c ∈ (mod_vars module).*2 →
        cls_module c ≠ mod_name module)
     → (c ∉ _iter_command_classes env module_name)
       ∧ (∀ inproject k,
            (_get_commands_from_module env module_name inproject !! k)
            ≠ Some (instantiate c))).
Proof.
  assert (Hiff : c ∈ _iter_command_classes env module_name
   ↔ ∃ module,
       module ∈ walk_modules env module_name
       ∧ ObjClass c ∈ (mod_vars module).*2
       ∧ issubclass c ScrapyCommand = true
       ∧ class_eq c ScrapyCommand = false
       ∧ cls_module c = mod_name module).
  { unfold _iter_command_classes. rewrite list_elem_of_bind. split.
    - intros (module & Hc & Hmod). exists module.
      apply list_elem_of_omap in Hc as (obj & Hobj & Hsome).
      apply is_command_class_Some in Hsome as (-> & ? & ? & ?). done.
    - intros (module & Hmod & Hobj & Hsub & Hid & Hname). exists module.
      split; [|done]. apply list_elem_of_omap. exists (ObjClass c).
      split; [done|]. by apply is_command_class_Some. }
  split; [exact Hiff|].
  intros Himported.
  assert (Hnot : c ∉ _iter_command_classes env module_name).
  { intros Hc. apply Hiff in Hc as (module & Hmod & Hobj & _ & _ & Hname).
    by apply (Himported module). }
  split; [exact Hnot|].
  intros inproject k Hk. apply Hnot.
  unfold _get_commands_from_module in Hk. rewrite commands_loop_lookup in Hk.
  destruct (last _) as [c'|] eqn:Hlast; [|by rewrite lookup_empty in Hk].
  injection Hk as ->.
  by apply last_Some_elem_of, list_elem_of_filter in Hlast as [_ Hin].
Qed.

(** C2, as the code has it. The registry of a module maps a key to an
    instance of the last yielded class that passes the test
    [inproject or not requires_project] and whose [__module__] ends in that
    key. So every instance in the result comes from a yielded class that
    passes the test, stored under the last component of its [__module__]; a
    class that fails the test has no instance in the result; and a yielded
    class that passes it is in the result under that key when no class
    yielded after it passes the test with the same key. *)
Theorem get_commands_from_module_spec (module : string) (inproject : bool) :
  let d := _get_commands_from_module env module inproject in
  let classes := _iter_command_classes env module in
  (∀ k, d !! k = instantiate <$> last (filter (stored_under inproject k) classes))
  ∧ (∀ k i, d !! k = Some i →
       ∃ c, c ∈ classes ∧ i = instantiate c
            ∧ accepted inproject c = true ∧ k = cmdname_of c)
  ∧ (∀ k c, accepted inproject c = false → d !! k ≠ Some (instantiate c))
  ∧ (∀ pre c post,
       classes = pre ++ c :: post →
       accepted inproject c = true →
       (∀ c', c' ∈ post → accepted inproject c' = true →
              cmdname_of c' ≠ cmdname_of c) →
       d !! cmdname_of c = Some (instantiate c)).
Proof.
  intros d classes.
  assert (Hlookup : ∀ k,
    d !! k = instantiate <$> last (filter (stored_under inproject k) classes)).
  { intros k. unfold d, _get_commands_from_module.
    rewrite commands_loop_lookup. fold classes.
    destruct (last _); [done|]. by rewrite lookup_empty. }
  assert (Hfrom : ∀ k i, d !! k = Some i →
       ∃ c, c ∈ classes ∧ i = instantiate c
            ∧ accepted inproject c = true ∧ k = cmdname_of c).
  { intros k i Hk. rewrite Hlookup in Hk.
    destruct (last _) as [c|] eqn:Hlast; [|done]. simpl in Hk.
    apply last_Some_elem_of, list_elem_of_filter in Hlast as [[Hacc Hkey] Hin].
    exists c. by simplify_eq. }
  split_and!; [done|done| |].
  - intros k c Hacc Hk. apply Hfrom in Hk as (c' & _ & Heq & Hacc' & _).
    injection Heq as ->. congruence.
  - intros pre c post Hclasses Hacc Hlater. rewrite Hlookup, Hclasses.
    rewrite filter_app, filter_cons, decide_True by done.
    replace (filter (stored_under inproject (cmdname_of c)) post) with (@nil (PyClass Settings)).
    + by rewrite last_snoc.
    + symmetry. apply filter_none.
      intros c' Hc' [Hacc' Hkey]. by apply (Hlater c').
Qed.

(** ** [_get_commands_from_entry_points] *)

Definition not_a_class (entry_point : EntryPoint Settings) : Prop :=
  isclass (ep_load entry_point) = false.

#[local] Instance not_a_class_dec entry_point : Decision (not_a_class entry_point) :=
  bool_eq_dec _ _.

(** What the loop stores for an entry point whose object is a class. *)
Definition ep_instance (entry_point : EntryPoint Settings) : option (Instance Settings) :=
  match ep_load entry_point with
  | ObjClass obj => Some (instantiate obj)
  | ObjOther _ => None
  end.

Definition named (name : string) (entry_point : EntryPoint Settings) : Prop :=
  ep_name entry_point = name.

#[local] Instance named_dec name entry_point : Decision (named name entry_point).
Proof. unfold named. apply _. Defined.

Lemma entry_points_loop_spec (eps : list (EntryPoint Settings))
    (cmds : gmap string (Instance Settings)) :
  match list_find not_a_class eps with
  | Some (_, bad) =>
      entry_points_loop eps cmds
      = Raise (Exception ("Invalid entry point " +:+ ep_name bad))
  | None =>
      ∃ cmds', entry_points_loop eps cmds = Ok cmds'
        ∧ ∀ name, cmds' !! name =
            match last (filter (named name) eps) with
            | Some entry_point => ep_instance entry_point
            | None => cmds !! name
            end
  end.
Proof.
  revert cmds. induction eps as [|ep eps IH]; intros cmds; simpl.
  { by exists cmds. }
  case_decide as Hep; unfold not_a_class in Hep;
    destruct (ep_load ep) as [obj|repr] eqn:Hload; simpl in Hep; try done.
  specialize (IH (<[ep_name ep := instantiate obj]> cmds)).
  destruct (list_find not_a_class eps) as [[j bad]|]; simpl; [done|].
  destruct IH as (cmds' & -> & Hcmds'). exists cmds'. split; [done|].
  intros name. rewrite Hcmds', filter_cons. case_decide as Hname.
  - rewrite last_cons. destruct (last _); [done|].
    unfold named in Hname. subst name. rewrite lookup_insert_eq.
    unfold ep_instance. by rewrite Hload.
  - destruct (last _); [done|]. by rewrite lookup_insert_ne.
Qed.

(** C7, as the code has it. The entry points of the group are processed in
    order. If the object of one of them is not a class, the function raises
    an [Exception] naming the first such entry point and returns no map.
    Otherwise it returns a map in which a name is bound to an instance of
    the class loaded by the last entry point of that name; with pairwise
    distinct names, every entry point's name is bound to an instance of its
    own class. *)
Theorem get_commands_from_entry_points_spec (inproject : bool) :
  let eps := iter_entry_points env "scrapy.commands" in
  match list_find not_a_class eps with
  | Some (_, bad) =>
      _get_commands_from_entry_points env inproject
      = Raise (Exception ("Invalid entry point " +:+ ep_name bad))
  | None =>
      ∃ cmds, _get_commands_from_entry_points env inproject = Ok cmds
        ∧ (∀ name, cmds !! name = last (filter (named name) eps) ≫= ep_instance)
        ∧ (NoDup (ep_name <$> eps) →
           ∀ entry_point, entry_point ∈ eps →
             ∃ obj, ep_load entry_point = ObjClass obj
                    ∧ cmds !! ep_name entry_point = Some (instantiate obj))
  end.
Proof.
  intros eps. unfold _get_commands_from_entry_points, _get_commands_from_entry_points_in.
  fold eps. pose proof (entry_points_loop_spec eps ∅) as Hloop.
  destruct (list_find not_a_class eps) as [[j bad]|] eqn:Hfind; [done|].
  destruct Hloop as (cmds & Hcmds & Hnames). exists cmds.
  assert (Hlookup : ∀ name, cmds !! name = last (filter (named name) eps) ≫= ep_instance).
  { intros name. rewrite Hnames. destruct (last _); [done|]. by rewrite lookup_empty. }
  split_and!; [done|done|].
  intros Hnodup ep Hep.
  apply list_find_None in Hfind. rewrite Forall_forall in Hfind.
  specialize (Hfind ep Hep). unfold not_a_class in Hfind.
  destruct (ep_load ep) as [obj|repr] eqn:Hload; [|done].
  exists obj. split; [done|]. rewrite Hlookup.
  apply list_elem_of_split in Hep as (pre & post & Heps).
  rewrite Heps, filter_app, filter_cons, decide_True by done.
  replace (filter (named (ep_name ep)) post) with (@nil (EntryPoint Settings)).
  { rewrite last_snoc. simpl. unfold ep_instance. by rewrite Hload. }
  symmetry. apply filter_none. intros ep' Hep' Hname.
  rewrite Heps, fmap_app, fmap_cons in Hnodup.
  apply NoDup_app in Hnodup as (_ & _ & Hnodup).
  apply NoDup_cons in Hnodup as [Hnotin _]. apply Hnotin.
  unfold named in Hname. rewrite <- Hname. by apply list_elem_of_fmap_2.
Qed.

(** ** [_get_commands_dict] *)

(** C1, as the code has it. When the entry points are all classes,
    [_get_commands_dict] returns a map built from three sources: the
    commands of the module [scrapy.commands], then those of the entry-point
    group, then, when [settings['COMMANDS_MODULE']] is true, those of that
    module; a name bound by several sources keeps the command of the last
    one. When an entry point is not a class the exception of
    [_get_commands_from_entry_points] is what [_get_commands_dict] raises. *)
Theorem get_commands_dict_spec (m : Mem Settings) (settings : loc) (inproject : bool) :
  let builtin := _get_commands_from_module env "scrapy.commands" inproject in
  let cmds_module := settings_get m settings "COMMANDS_MODULE" in
  let project :=
    if truthy cmds_module
    then _get_commands_from_module env (str cmds_module) inproject
    else ∅ in
  match _get_commands_from_entry_points env inproject with
  | Raise e => _get_commands_dict env m settings inproject = Raise e
  | Ok plugins =>
      ∃ cmds, _get_commands_dict env m settings inproject = Ok cmds
        ∧ ∀ name,
            cmds !! name =
            match project !! name with
            | Some cmd => Some cmd
            | None =>
                match plugins !! name with
                | Some cmd => Some cmd
                | None => builtin !! name
                end
            end
  end.
Proof.
  intros builtin cmds_module project. unfold _get_commands_dict.
  destruct (_get_commands_from_entry_points env inproject) as [plugins|e]; [|done].
  fold cmds_module builtin. unfold project.
  destruct (truthy cmds_module); eexists; (split; [done|]); intros name;
    unfold update; rewrite !lookup_union, ?lookup_empty;
    repeat destruct (_ !! name); done.
Qed.

End Discovery.

Section Dispatch.

Context {Settings : Type} {settings_ops : SettingsOps Settings}.
Variable env : Env Settings.

Notation "x <- m ;; k" := (bind m (fun x => k))
  (at level 100, m at next level, right associativity).
Notation "m ;; k" := (bind m (fun _ => k))
  (at level 100, right associativity).

(** ** The monad *)

Lemma bind_Ok {A B : Type} (c : M Settings A) (k : A → M Settings B)
    (s s' : State Settings) (a : A) :
  c s = (Ok a, s') → bind c k s = k a s'.
Proof. intros H. unfold bind. by rewrite H. Qed.

(** ** [_run_print_help] *)

(** The calls [handle_usage_error] makes on the parser. *)
Definition reported (msg : string) : list Event :=
  if negb (String.eqb msg "") then [CallParserError msg] else [].

Definition helped (print_help : bool) : list Event :=
  if print_help then [CallPrintHelp] else [].

Lemma handle_usage_error_spec (parser : Parser Settings) (msg : string)
    (print_help : bool) (s : State Settings) :
  handle_usage_error parser msg print_help s =
  match (if negb (String.eqb msg "") then p_error parser msg else Ok tt) with
  | Raise e => (Raise e, {| mem := mem s; log := log s ++ reported msg |})
  | Ok _ =>
      match (if print_help then p_print_help parser else Ok tt) with
      | Raise e =>
          (Raise e, {| mem := mem s; log := log s ++ reported msg ++ helped print_help |})
      | Ok _ =>
          (Raise (SystemExit 2),
           {| mem := mem s; log := log s ++ reported msg ++ helped print_help |})
      end
  end.
Proof.
  destruct s as [m lg].
  unfold handle_usage_error, parser_error, parser_print_help, reported, helped,
    bind, emit, outcome, ret, sys_exit, raise.
  destruct (negb (String.eqb msg "")), print_help; simpl;
    repeat match goal with
    | |- context [p_error ?p ?x] => destruct (p_error p x) as [[]|]; simpl
    | |- context [p_print_help ?p] => destruct (p_print_help p) as [[]|]; simpl
    end;
    rewrite ?app_nil_r, <- ?app_assoc; reflexivity.
Qed.

(** C4, as the code has it. [_run_print_help] calls the function. When the
    call returns, the wrapper returns; an exception other than [UsageError]
    propagates. On [UsageError] it calls [parser.error] with the text when
    the text is not empty; if that call returns (or the text is empty) it
    calls [parser.print_help] when the flag is set; if that returns too it
    exits with status 2. An exception raised by [parser.error] or
    [parser.print_help] ends the wrapper at that point and propagates. *)
Theorem run_print_help_spec (parser : Parser Settings) (func : M Settings unit)
    (s : State Settings) :
  match func s with
  | (Ok _, s') => _run_print_help parser func s = (Ok tt, s')
  | (Raise (UsageError msg print_help), s') =>
      match (if negb (String.eqb msg "") then p_error parser msg else Ok tt) with
      | Raise e =>
          _run_print_help parser func s
          = (Raise e, {| mem := mem s'; log := log s' ++ reported msg |})
      | Ok _ =>
          match (if print_help then p_print_help parser else Ok tt) with
          | Raise e =>
              _run_print_help parser func s
              = (Raise e, {| mem := mem s';
                             log := log s' ++ reported msg ++ helped print_help |})
          | Ok _ =>
              _run_print_help parser func s
              = (Raise (SystemExit 2),
                 {| mem := mem s';
                    log := log s' ++ reported msg ++ helped print_help |})
          end
      end
  | (Raise e, s') => _run_print_help parser func s = (Raise e, s')
  end.
Proof.
  unfold _run_print_help.
  destruct (func s) as [[[]|[msg print_help|code|msg]] s']; try reflexivity.
  rewrite handle_usage_error_spec.
  destruct (if negb (String.eqb msg "") then p_error parser msg else Ok tt);
    [|reflexivity].
  destruct (if print_help then p_print_help parser else Ok tt); reflexivity.
Qed.

(** ** Settings resolution *)

(** C5. [execute] resolves the settings and goes on with [dispatch] on
    them. Settings passed explicitly are kept. With [settings=None] the
    attribute [scrapy.conf.settings] is taken when [scrapy.conf] is in
    [sys.modules] and has it; otherwise a new object made by
    [get_project_settings()] is taken, its [EDITOR] key set from the
    environment variable when there is one. In every case the settings
    taken are then stored in [scrapy.conf.settings]. *)
Theorem resolve_settings_spec (settings : option loc) (s : State Settings) :
  ∃ l s1,
    resolve_settings env settings s = (Ok l, s1)
    ∧ (∀ argv, execute env argv settings s
               = dispatch env l (default (sys_argv env) argv) s1)
    ∧ conf_imported (mem s1) = true
    ∧ conf_settings (mem s1) = Some l
    ∧ log s1 = log s ++ [CheckDeprecatedSettings l; ImportConf]
    ∧ match settings with
      | Some given => l = given ∧ heap (mem s1) = heap (mem s)
      | None =>
          match (if conf_imported (mem s) then conf_settings (mem s) else None) with
          | Some singleton => l = singleton ∧ heap (mem s1) = heap (mem s)
          | None =>
              heap (mem s) !! l = None
              ∧ heap (mem s1) =
                <[l := match environ env !! "EDITOR" with
                       | Some editor => setitem (get_project_settings env) "EDITOR" editor
                       | None => get_project_settings env
                       end]> (heap (mem s))
          end
      end.
Proof.
  destruct s as [m lg].
  assert (Hfresh : heap m !! fresh (dom (heap m)) = None).
  { apply not_elem_of_dom, is_fresh. }
  unfold execute, resolve_settings, settings_from_conf, settings_from_project,
    publish_settings, alloc, mutate, modify_mem, get_mem, emit, bind, ret.
  destruct settings as [given|]; simpl.
  { eexists _, _. split_and!; try reflexivity. by rewrite <- app_assoc. }
  destruct (conf_imported m) eqn:Himp; simpl;
    [destruct (conf_settings m) as [singleton|] eqn:Hconf; simpl|].
  { eexists _, _. split_and!; try reflexivity. by rewrite <- app_assoc. }
  all: destruct (environ env !! "EDITOR") as [editor|]; simpl;
    eexists _, _; split_and!; try reflexivity; try done;
    try (by rewrite <- app_assoc).
  all: by rewrite alter_insert_eq.
Qed.

(** ** Messages *)

Lemma get_commands_dict_heap (m m' : Mem Settings) (settings : loc) (inproject : bool) :
  heap m = heap m' →
  _get_commands_dict env m settings inproject
  = _get_commands_dict env m' settings inproject.
Proof.
  intros Hheap. unfold _get_commands_dict, settings_get. by rewrite Hheap.
Qed.

(** A computation that only prints. *)
Definition prints (c : M Settings unit) : Prop :=
  ∀ s, ∃ lines,
    c s = (Ok tt, {| mem := set_stdout (stdout (mem s) ++ lines) (mem s);
                     log := log s |}).

Lemma prints_print (line : string) : prints (print line).
Proof. intros s. by exists [line]. Qed.

Lemma prints_ret : prints (ret tt).
Proof.
  intros [m lg]. exists []. unfold ret, set_stdout. simpl.
  rewrite app_nil_r. by destruct m.
Qed.

Lemma prints_bind (c1 c2 : M Settings unit) :
  prints c1 → prints c2 → prints (c1 ;; c2).
Proof.
  intros H1 H2 s. destruct (H1 s) as [l1 Hl1].
  destruct (H2 {| mem := set_stdout (stdout (mem s) ++ l1) (mem s); log := log s |})
    as [l2 Hl2].
  exists (l1 ++ l2). unfold bind. rewrite Hl1, Hl2. simpl.
  unfold set_stdout. simpl. by rewrite app_assoc.
Qed.

Lemma prints_header (settings : loc) (inproject : bool) :
  prints (_print_header env settings inproject).
Proof.
  unfold _print_header. destruct inproject; [|apply prints_print].
  intros s. eexists [_]. reflexivity.
Qed.

Lemma prints_command_lines (items : list (string * Instance Settings)) :
  prints (print_command_lines items).
Proof.
  induction items as [|[cmdname cmdclass] items IH]; simpl; [apply prints_ret|].
  apply prints_bind; [apply prints_print|exact IH].
Qed.

Lemma prints_unknown_command (settings : loc) (cmdname : string) (inproject : bool) :
  prints (_print_unknown_command env settings cmdname inproject).
Proof.
  unfold _print_unknown_command.
  repeat apply prints_bind; auto using prints_header, prints_print.
Qed.

Lemma prints_commands (settings : loc) (inproject : bool) (s : State Settings)
    (cmds : gmap string (Instance Settings)) :
  _get_commands_dict env (mem s) settings inproject = Ok cmds →
  ∃ lines,
    _print_commands env settings inproject s
    = (Ok tt, {| mem := set_stdout (stdout (mem s) ++ lines) (mem s); log := log s |}).
Proof.
  intros Hcmds.
  assert (Hhead : prints (_print_header env settings inproject ;;
                          print "Usage:" ;;
                          print ("  scrapy <command> [options] [args]" +:+ nl) ;;
                          print "Available commands:")).
  { repeat apply prints_bind; auto using prints_header, prints_print. }
  assert (Htail : prints (print_command_lines (sorted_items cmds) ;;
     (if negb inproject then
        print "" ;;
        print "  [ more ]      More commands available when run from project directory"
      else ret tt) ;;
     print "" ;;
     print ("Use " +:+ dq +:+ "scrapy <command> -h" +:+ dq
            +:+ " to see more info about a command"))).
  { repeat apply prints_bind; auto using prints_command_lines, prints_print.
    destruct inproject; simpl; [apply prints_ret|].
    apply prints_bind; apply prints_print. }
  destruct (Hhead s) as [l1 Hl1].
  destruct (Htail {| mem := set_stdout (stdout (mem s) ++ l1) (mem s); log := log s |})
    as [l2 Hl2].
  exists (l1 ++ l2). unfold _print_commands.
  unfold bind in Hl1. unfold bind at 1 2 3 4.
  destruct (_print_header env settings inproject s) as [[[]|e] s1]; [|done].
  destruct (print "Usage:" s1) as [[[]|e] s2]; [|done].
  destruct (print _ s2) as [[[]|e] s3]; [|done].
  rewrite Hl1. unfold bind at 1, get_mem. simpl.
  unfold bind at 1, outcome.
  rewrite (get_commands_dict_heap _ (mem s)) by done. rewrite Hcmds.
  rewrite Hl2. simpl. unfold set_stdout. simpl. by rewrite app_assoc.
Qed.

(** ** The selected command *)

(** The state in which the options are parsed (after lines 149-155): the
    default settings of the command are merged at priority ['command'] and
    [cmd.settings] is the settings object. *)
Definition prepared (settings : loc) (cmdname : string) (cmd : Instance Settings)
    (s : State Settings) : State Settings :=
  {| mem :=
       set_cmd (Some settings) None (exitcode (inst_class cmd))
         (set_heap
            (alter (fun d => setdict d (default_settings (inst_class cmd)) "command")
                   settings (heap (mem s)))
            (mem s));
     log := log s ++
       [SetParserUsage ("scrapy " +:+ cmdname +:+ " " +:+ syntax (inst_class cmd));
        SetParserDescription (long_desc (inst_class cmd));
        CallSetdict settings (default_settings (inst_class cmd)) "command";
        SetCmdSettings settings;
        CallAddOptions] |}.

Lemma prepare_command_spec (settings : loc) (cmdname : string)
    (cmd : Instance Settings) (s : State Settings) :
  prepare_command settings cmdname cmd s = (Ok tt, prepared settings cmdname cmd s).
Proof.
  destruct s as [m lg].
  unfold prepare_command, prepared, mutate, modify_mem, emit, bind. simpl.
  by rewrite <- !app_assoc.
Qed.

(** What [_run_command_profiled] writes around the call of [run]. *)
Definition profile_start (opts : Opts) : list Event :=
  if truthy (profile opts) then [StderrProfile (str (profile opts))] else [].

Definition profile_end (opts : Opts) : list Event :=
  if truthy (profile opts) then [DumpStats (str (profile opts))] else [].

(** The state in which [run] is called: [cmd.crawler_process] is a
    [CrawlerProcess] on the settings object. [m] and [lg] are the memory
    left by [process_options] and the log when it was called. *)
Definition ready (settings : loc) (args : list string) (opts : Opts)
    (m : Mem Settings) (lg : list Event) : State Settings :=
  {| mem := set_cmd (cmd_settings m) (Some {| cp_settings := settings |})
                    (cmd_exitcode m) m;
     log := lg ++ [CallProcessOptions args opts;
                   SetCmdCrawlerProcess {| cp_settings := settings |}]
               ++ profile_start opts ++ [CallRun args opts] |}.

(** [handle_usage_error] never returns: what follows it is not run. *)
Ltac usage_error_ends :=
  match goal with
  | |- context [handle_usage_error ?p ?msg ?ph ?st] =>
      let Hh := fresh "Hh" in
      destruct (handle_usage_error p msg ph st) as [[[]|?] ?] eqn:Hh; [|done];
      rewrite handle_usage_error_spec in Hh;
      (destruct (if negb _ then _ else _); [|done]);
      by destruct (if ph then _ else _)
  end.

Lemma run_prepared_spec (settings : loc) (parser : Parser Settings)
    (cmd : Instance Settings) (argv : list string) (s : State Settings) :
  let s2 := {| mem := mem s; log := log s ++ [CallParseArgs (drop 1 argv)] |} in
  run_prepared settings parser cmd argv s =
  match p_parse_args parser (inst_class cmd) (drop 1 argv) with
  | Raise e => (Raise e, s2)
  | Ok (opts, args) =>
      match process_options (inst_class cmd) args opts (mem s) with
      | (Raise (UsageError msg print_help), m3) =>
          handle_usage_error parser msg print_help
            {| mem := m3; log := log s2 ++ [CallProcessOptions args opts] |}
      | (Raise e, m3) =>
          (Raise e, {| mem := m3; log := log s2 ++ [CallProcessOptions args opts] |})
      | (Ok _, m3) =>
          let s4 := ready settings args opts m3 (log s2) in
          match run (inst_class cmd) args opts (mem s4) with
          | (Ok _, m5) =>
              (Raise (SystemExit (cmd_exitcode m5)),
               {| mem := m5; log := log s4 ++ profile_end opts |})
          | (Raise (UsageError msg print_help), m5) =>
              handle_usage_error parser msg print_help {| mem := m5; log := log s4 |}
          | (Raise e, m5) => (Raise e, {| mem := m5; log := log s4 |})
          end
      end
  end.
Proof.
  destruct s as [m lg]. simpl.
  unfold run_prepared, bind at 1 2, emit, outcome. simpl.
  destruct (p_parse_args parser (inst_class cmd) (drop 1 argv)) as [[opts args]|e];
    [|done].
  unfold bind at 1, _run_print_help at 1, cmd_process_options, bind at 1, emit, call.
  simpl.
  destruct (process_options (inst_class cmd) args opts m)
    as [[[]|[msg print_help|code|msg]] m3]; simpl;
    [|usage_error_ends|reflexivity|reflexivity].
  unfold bind at 1 2 3, modify_mem, emit, get_mem, sys_exit, raise. simpl.
  unfold _run_print_help, _run_command, _run_command_profiled, cmd_run, ready,
    profile_start, profile_end, bind, emit, call, ret. simpl.
  destruct (truthy (profile opts)); simpl;
    rewrite <- ?app_assoc; simpl;
    destruct (run (inst_class cmd) args opts _)
      as [[[]|[msg print_help|code|msg]] m5]; simpl;
    rewrite <- ?app_assoc, ?app_nil_r; simpl; try reflexivity.
  all: usage_error_ends.
Qed.

(** ** Traces *)

Definition is_run (e : Event) : Prop :=
  match e with CallRun _ _ => True | _ => False end.

Lemma no_run_split (tail pre post : list Event) (args : list string) (opts : Opts) :
  Forall (fun e => ¬ is_run e) tail → tail ≠ pre ++ CallRun args opts :: post.
Proof.
  intros Hfree ->. apply Forall_app in Hfree as [_ Hfree].
  apply Forall_cons in Hfree as [Hrun _]. by apply Hrun.
Qed.

Lemma one_run_split (before after pre post : list Event) (x y : Event) :
  Forall (fun e => ¬ is_run e) before →
  Forall (fun e => ¬ is_run e) after →
  is_run x → is_run y →
  before ++ x :: after = pre ++ y :: post → pre = before.
Proof.
  intros Hbefore Hafter Hx Hy. revert pre.
  induction Hbefore as [|b before Hb Hbefore IH]; intros [|p pre] Heq;
    simpl in Heq; simplify_eq.
  - done.
  - exfalso. apply Forall_app in Hafter as [_ Hafter].
    apply Forall_cons in Hafter as [Hrun _]. by apply Hrun.
  - done.
  - f_equal. by apply IH.
Qed.

Lemma reported_no_run (msg : string) : Forall (fun e => ¬ is_run e) (reported msg).
Proof. unfold reported. destruct (negb _); repeat constructor; by intros []. Qed.

Lemma helped_no_run (print_help : bool) :
  Forall (fun e => ¬ is_run e) (helped print_help).
Proof. unfold helped. destruct print_help; repeat constructor; by intros []. Qed.

Lemma profile_start_no_run (opts : Opts) :
  Forall (fun e => ¬ is_run e) (profile_start opts).
Proof. unfold profile_start. destruct (truthy _); repeat constructor; by intros []. Qed.

Lemma profile_end_no_run (opts : Opts) :
  Forall (fun e => ¬ is_run e) (profile_end opts).
Proof. unfold profile_end. destruct (truthy _); repeat constructor; by intros []. Qed.

Lemma handle_usage_error_outcome (parser : Parser Settings) (msg : string)
    (print_help : bool) (s s' : State Settings) (r : result unit) :
  handle_usage_error parser msg print_help s = (r, s') →
  r ≠ Ok tt ∧ mem s' = mem s
  ∧ ∃ evs, log s' = log s ++ evs ∧ Forall (fun e => ¬ is_run e) evs.
Proof.
  rewrite handle_usage_error_spec.
  destruct (if negb _ then _ else _).
  - destruct (if print_help then _ else _); intros [= <- <-]; simpl;
      (split_and!; [done|done|]); eexists; (split; [done|]);
      apply Forall_app; auto using reported_no_run, helped_no_run.
  - intros [= <- <-]; simpl. split_and!; [done|done|]. eexists. split; [done|].
    apply reported_no_run.
Qed.

(** Lists of events equal up to the bracketing of [++]. *)
Ltac app_norm := repeat first [rewrite <- app_assoc | progress simpl]; try done.

(** The three actions that come before [run], in order. *)
Definition setup_actions (settings : loc) (cmd : Instance Settings) : list Event :=
  [CallSetdict settings (default_settings (inst_class cmd)) "command";
   SetCmdSettings settings;
   SetCmdCrawlerProcess {| cp_settings := settings |}].

(** [run] is called at most once, and only after the three actions. *)
Definition run_follows_setup (settings : loc) (cmd : Instance Settings)
    (tail : list Event) : Prop :=
  ∀ pre args opts post,
    tail = pre ++ CallRun args opts :: post →
    setup_actions settings cmd `sublist_of` pre.

Lemma selected_outcome (settings : loc) (parser : Parser Settings) (cmdname : string)
    (cmd : Instance Settings) (argv : list string) (s s' : State Settings)
    (r : result unit) :
  run_prepared settings parser cmd argv (prepared settings cmdname cmd s) = (r, s') →
  r ≠ Ok tt
  ∧ ∃ tail,
      log s' = log s ++ tail
      ∧ run_follows_setup settings cmd tail
      ∧ ∀ opts args m3,
          p_parse_args parser (inst_class cmd) (drop 1 argv) = Ok (opts, args) →
          process_options (inst_class cmd) args opts
            (mem (prepared settings cmdname cmd s)) = (Ok tt, m3) →
          let m4 := set_cmd (cmd_settings m3) (Some {| cp_settings := settings |})
                            (cmd_exitcode m3) m3 in
          mem s' = snd (run (inst_class cmd) args opts m4)
          ∧ ∃ pre post, tail = pre ++ CallRun args opts :: post.
Proof.
  rewrite run_prepared_spec. cbv zeta.
  remember (prepared settings cmdname cmd s) as s2 eqn:Hs2.
  assert (Hlog2 : log s2 = log s ++
       [SetParserUsage ("scrapy " +:+ cmdname +:+ " " +:+ syntax (inst_class cmd));
        SetParserDescription (long_desc (inst_class cmd));
        CallSetdict settings (default_settings (inst_class cmd)) "command";
        SetCmdSettings settings;
        CallAddOptions]) by (by subst s2).
  clear Hs2.
  destruct (p_parse_args parser (inst_class cmd) (drop 1 argv)) as [[opts args]|e].
  2: { intros [= <- <-]. split; [done|]. eexists. simpl. rewrite Hlog2.
       split_and!; [by rewrite <- app_assoc| |done].
       intros pre a o post Heq. exfalso. revert Heq. apply no_run_split.
       repeat constructor; by intros []. }
  destruct (process_options (inst_class cmd) args opts (mem s2))
    as [[[]|e] m3] eqn:Hpo.
  2: { intros H.
       assert (∃ evs, r ≠ Ok tt
         ∧ log s' = (log s2 ++ [CallParseArgs (drop 1 argv)])
                    ++ [CallProcessOptions args opts] ++ evs
         ∧ Forall (fun e => ¬ is_run e) evs) as (evs & Hr & Hlog & Hevs).
       { destruct e as [msg print_help|code|msg].
         - apply handle_usage_error_outcome in H as (Hr & _ & evs & Hlog & Hevs).
           exists evs. simpl in Hlog. by rewrite Hlog, <- !app_assoc.
         - injection H as <- <-. exists []. by rewrite app_nil_r.
         - injection H as <- <-. exists []. by rewrite app_nil_r. }
       split; [done|]. eexists. rewrite Hlog, Hlog2.
       split_and!; [by rewrite <- !app_assoc| |].
       - intros pre a o post Heq. exfalso. revert Heq. apply no_run_split.
         simpl. repeat (apply Forall_cons; split; [by intros []|]). done.
       - intros opts' args' m3' [= -> ->]. congruence. }
  set (m4 := set_cmd (cmd_settings m3) (Some {| cp_settings := settings |})
                     (cmd_exitcode m3) m3).
  set (before := [SetParserUsage ("scrapy " +:+ cmdname +:+ " " +:+ syntax (inst_class cmd));
        SetParserDescription (long_desc (inst_class cmd));
        CallSetdict settings (default_settings (inst_class cmd)) "command";
        SetCmdSettings settings;
        CallAddOptions;
        CallParseArgs (drop 1 argv);
        CallProcessOptions args opts;
        SetCmdCrawlerProcess {| cp_settings := settings |}] ++ profile_start opts).
  intros Hrun.
  assert (∃ evs, r ≠ Ok tt
    ∧ mem s' = snd (run (inst_class cmd) args opts m4)
    ∧ log s' = log s ++ before ++ CallRun args opts :: evs
    ∧ Forall (fun e => ¬ is_run e) evs) as (evs & Hr & Hmem & Hlog & Hevs).
  { unfold ready in Hrun. simpl in Hrun. fold m4 in Hrun.
    assert (Hlog4 : (log s2 ++ [CallParseArgs (drop 1 argv)]) ++
                    CallProcessOptions args opts
                    :: SetCmdCrawlerProcess {| cp_settings := settings |}
                    :: profile_start opts ++ [CallRun args opts]
                    = log s ++ before ++ [CallRun args opts]).
    { rewrite Hlog2. unfold before. by rewrite <- !app_assoc. }
    rewrite Hlog4 in Hrun.
    destruct (run (inst_class cmd) args opts m4) as [[[]|e] m5]; simpl.
    - injection Hrun as <- <-. exists (profile_end opts). simpl.
      split_and!; [done|done| |apply profile_end_no_run].
      app_norm.
    - destruct e as [msg print_help|code|msg].
      + apply handle_usage_error_outcome in Hrun as (Hr & Hmem & evs & Hlog & Hevs).
        exists evs. simpl in Hlog, Hmem. split_and!; [done|done| |done].
        rewrite Hlog. app_norm.
      + injection Hrun as <- <-. exists []. simpl.
        split_and!; [done|done| |done]. app_norm.
      + injection Hrun as <- <-. exists []. simpl.
        split_and!; [done|done| |done]. app_norm. }
  assert (Hbefore : Forall (fun e => ¬ is_run e) before).
  { unfold before. apply Forall_app. split; [|apply profile_start_no_run].
    repeat (apply Forall_cons; split; [by intros []|]). done. }
  split; [done|]. exists (before ++ CallRun args opts :: evs).
  split_and!; [done| |].
  - intros pre a o post Heq.
    apply one_run_split in Heq; [|done..]. subst pre.
    unfold before, setup_actions. apply sublist_inserts_r.
    apply sublist_cons, sublist_cons, sublist_skip, sublist_skip.
    apply sublist_cons, sublist_cons, sublist_cons, sublist_skip, sublist_nil.
  - intros opts' args' m3' [= <- <-] Hpo'. rewrite Hpo in Hpo'.
    injection Hpo' as <-. split; [done|]. by exists before, evs.
Qed.

Lemma dispatch_selected (settings : loc) (argv argv' : list string)
    (cmdname : option string) (cmds : gmap string (Instance Settings))
    (cmd : Instance Settings) (s : State Settings) :
  _get_commands_dict env (mem s) settings (inside_project env) = Ok cmds →
  _pop_command_name argv = (cmdname, argv') →
  truthy cmdname = true →
  cmds !! str cmdname = Some cmd →
  dispatch env settings argv s
  = run_prepared settings (OptionParser env) cmd argv'
      (prepared settings (str cmdname) cmd s).
Proof.
  intros Hcmds Hpop Htruthy Hcmd.
  unfold dispatch, bind at 1 2, get_mem, outcome. rewrite Hcmds, Hpop, Htruthy.
  simpl. rewrite Hcmd. unfold run_selected.
  by rewrite (bind_Ok _ _ _ _ _ (prepare_command_spec _ _ _ _)).
Qed.

Lemma execute_dispatch (argv : option (list string)) (settings : option loc)
    (s s1 : State Settings) (l : loc) :
  resolve_settings env settings s = (Ok l, s1) →
  execute env argv settings s = dispatch env l (default (sys_argv env) argv) s1.
Proof. intros Hres. unfold execute. by rewrite (bind_Ok _ _ _ _ _ Hres). Qed.

(** ** The paths of [execute] *)

(** C3, as the code has it. With the settings resolved, [execute] never
    returns and takes one of these paths. If the discovery of the commands
    raises, the exception propagates. If [_pop_command_name] finds no name
    or an empty one, the listing is printed and the exit status is 0. If
    the name is not in the registry, the unknown-command message is printed
    and the exit status is 2. Otherwise the command is prepared and the
    options are parsed; an exit or exception of [parse_args] propagates.
    Then [process_options] is called: on [UsageError] the handler of
    [_run_print_help] ends the process (status 2 when the parser methods
    return) and [run] is not called; another exception propagates. Only
    when [process_options] returns is [run] called: when it returns the
    exit status is the command's [exitcode]; on [UsageError] the same
    handler ends the process; another exception propagates. *)
Theorem execute_paths (argv : option (list string)) (settings : option loc)
    (s s1 : State Settings) (l : loc) (cmdname : option string)
    (argv' : list string) :
  resolve_settings env settings s = (Ok l, s1) →
  _pop_command_name (default (sys_argv env) argv) = (cmdname, argv') →
  let inproject := inside_project env in
  let parser := OptionParser env in
  let final := execute env argv settings s in
  fst final ≠ Ok tt
  ∧ match _get_commands_dict env (mem s1) l inproject with
    | Raise e => final = (Raise e, s1)
    | Ok cmds =>
        if negb (truthy cmdname) then
          ∃ s2, _print_commands env l inproject s1 = (Ok tt, s2)
                ∧ final = (Raise (SystemExit 0), s2)
        else
          match cmds !! str cmdname with
          | None =>
              ∃ s2, _print_unknown_command env l (str cmdname) inproject s1 = (Ok tt, s2)
                    ∧ final = (Raise (SystemExit 2), s2)
          | Some cmd =>
              let s2 := prepared l (str cmdname) cmd s1 in
              let s3 := {| mem := mem s2;
                           log := log s2 ++ [CallParseArgs (drop 1 argv')] |} in
              match p_parse_args parser (inst_class cmd) (drop 1 argv') with
              | Raise e => final = (Raise e, s3)
              | Ok (opts, args) =>
                  match process_options (inst_class cmd) args opts (mem s2) with
                  | (Raise (UsageError msg print_help), m3) =>
                      final = handle_usage_error parser msg print_help
                                {| mem := m3;
                                   log := log s3 ++ [CallProcessOptions args opts] |}
                  | (Raise e, m3) =>
                      final = (Raise e,
                               {| mem := m3;
                                  log := log s3 ++ [CallProcessOptions args opts] |})
                  | (Ok _, m3) =>
                      let s4 := ready l args opts m3 (log s3) in
                      match run (inst_class cmd) args opts (mem s4) with
                      | (Ok _, m5) =>
                          final = (Raise (SystemExit (cmd_exitcode m5)),
                                   {| mem := m5; log := log s4 ++ profile_end opts |})
                      | (Raise (UsageError msg print_help), m5) =>
                          final = handle_usage_error parser msg print_help
                                    {| mem := m5; log := log s4 |}
                      | (Raise e, m5) => final = (Raise e, {| mem := m5; log := log s4 |})
                      end
                  end
              end
          end
    end.
Proof.
  intros Hres Hpop inproject parser final.
  assert (Hfinal : final = dispatch env l (default (sys_argv env) argv) s1)
    by (by apply execute_dispatch).
  destruct (_get_commands_dict env (mem s1) l inproject) as [cmds|e] eqn:Hcmds.
  2: { assert (final = (Raise e, s1)) as Heq.
       { rewrite Hfinal. unfold dispatch, bind at 1 2, get_mem, outcome.
         fold inproject. by rewrite Hcmds. }
       by rewrite Heq. }
  destruct (truthy cmdname) eqn:Htruthy; simpl.
  2: { destruct (prints_commands l inproject s1 cmds Hcmds) as [lines Hlines].
       assert (final = (Raise (SystemExit 0),
                 {| mem := set_stdout (stdout (mem s1) ++ lines) (mem s1);
                    log := log s1 |})) as Heq.
       { rewrite Hfinal. unfold dispatch, bind at 1 2, get_mem, outcome.
         fold inproject. rewrite Hcmds, Hpop, Htruthy. simpl.
         by rewrite (bind_Ok _ _ _ _ _ Hlines). }
       rewrite Heq. split; [done|]. eexists. by split. }
  destruct (cmds !! str cmdname) as [cmd|] eqn:Hcmd.
  2: { destruct (prints_unknown_command l (str cmdname) inproject s1) as [lines Hlines].
       assert (final = (Raise (SystemExit 2),
                 {| mem := set_stdout (stdout (mem s1) ++ lines) (mem s1);
                    log := log s1 |})) as Heq.
       { rewrite Hfinal. unfold dispatch, bind at 1 2, get_mem, outcome.
         fold inproject. rewrite Hcmds, Hpop, Htruthy. simpl. rewrite Hcmd.
         by rewrite (bind_Ok _ _ _ _ _ Hlines). }
       rewrite Heq. split; [done|]. eexists. by split. }
  rewrite (dispatch_selected l _ argv' cmdname cmds cmd s1) in Hfinal by done.
  split.
  { destruct final as [r s'] eqn:Hr. symmetry in Hfinal.
    apply selected_outcome in Hfinal as [Hne _]. done. }
  rewrite run_prepared_spec in Hfinal. cbv zeta in Hfinal. cbv zeta.
  fold parser in Hfinal.
  destruct (p_parse_args parser (inst_class cmd) (drop 1 argv')) as [[opts args]|e];
    [|done].
  destruct (process_options _ _ _ _) as [[[]|[msg print_help|code|msg]] m3];
    [|done..].
  destruct (run _ _ _ _) as [[[]|[msg print_help|code|msg]] m5]; done.
Qed.

(** C6. For a command name found in the registry, [execute] merges the
    [default_settings] of the command into the settings object at priority
    ['command'] and sets [cmd.settings] to that object before the options
    are parsed; whenever [run] is called, these two actions and the
    assignment of [CrawlerProcess(settings)] to [cmd.crawler_process] have
    happened before, in this order, and [run] is called (when [parse_args]
    and [process_options] return) on a memory where [cmd.crawler_process]
    is that [CrawlerProcess]. *)
Theorem command_set_up_before_run (argv : option (list string))
    (settings : option loc) (s s1 s' : State Settings) (l : loc)
    (cmds : gmap string (Instance Settings)) (cmdname : option string)
    (argv' : list string) (cmd : Instance Settings) (r : result unit) :
  resolve_settings env settings s = (Ok l, s1) →
  _get_commands_dict env (mem s1) l (inside_project env) = Ok cmds →
  _pop_command_name (default (sys_argv env) argv) = (cmdname, argv') →
  truthy cmdname = true →
  cmds !! str cmdname = Some cmd →
  execute env argv settings s = (r, s') →
  let s2 := prepared l (str cmdname) cmd s1 in
  heap (mem s2)
  = alter (fun d => setdict d (default_settings (inst_class cmd)) "command")
          l (heap (mem s1))
  ∧ cmd_settings (mem s2) = Some l
  ∧ ∃ tail,
      log s' = log s1 ++ tail
      ∧ run_follows_setup l cmd tail
      ∧ ∀ opts args m3,
          p_parse_args (OptionParser env) (inst_class cmd) (drop 1 argv') = Ok (opts, args) →
          process_options (inst_class cmd) args opts (mem s2) = (Ok tt, m3) →
          let m4 := set_cmd (cmd_settings m3) (Some {| cp_settings := l |})
                            (cmd_exitcode m3) m3 in
          cmd_crawler_process m4 = Some {| cp_settings := l |}
          ∧ mem s' = snd (run (inst_class cmd) args opts m4)
          ∧ ∃ pre post, tail = pre ++ CallRun args opts :: post.
Proof.
  intros Hres Hcmds Hpop Htruthy Hcmd Hexec s2.
  rewrite (execute_dispatch _ _ _ _ _ Hres) in Hexec.
  rewrite (dispatch_selected l _ argv' cmdname cmds cmd s1) in Hexec by done.
  apply selected_outcome in Hexec as (_ & tail & Hlog & Htrace & Hrun).
  split_and!; [done|done|]. exists tail. split_and!; [done|done|].
  intros opts args m3 Hparse Hpo m4.
  destruct (Hrun opts args m3 Hparse Hpo) as [Hmem Hcalled]. by split_and!.
Qed.

End Dispatch.

(** ** The request queue *)

Section RequestQueue.

Import Scheduler.

Lemma push_fresh (r : Request) (q : Queue) :
  fingerprint r ∉ seen q →
  push r q =
  {| entries := insert_entry {| request := r; seq := next_seq q |} (entries q);
     next_seq := S (next_seq q);
     seen := if dont_filter r then seen q else {[fingerprint r]} ∪ seen q |}.
Proof.
  intros Hfresh. unfold push. destruct (dont_filter r); [done|].
  by rewrite decide_False.
Qed.

(** C8. Pushing A (priority 5), B (priority 1) and C (priority 5) in this
    order on the empty queue and popping with an unlimited throttle gives
    A, C, B, after which the queue is empty. *)
Theorem queue_pop_order (A B C : Request) :
  priority A = 5 → priority B = 1 → priority C = 5 →
  fingerprint A ≠ fingerprint B →
  fingerprint A ≠ fingerprint C →
  fingerprint B ≠ fingerprint C →
  ∃ q', pop_all unlimited 3 (push C (push B (push A empty))) = ([A; C; B], q')
        ∧ is_empty q' = true
        ∧ fst (pop_ready unlimited q') = None.
Proof.
  intros HA HB HC HAB HAC HBC.
  rewrite (push_fresh A empty) by (simpl; apply not_elem_of_empty).
  rewrite (push_fresh B) by
    (simpl; destruct (dont_filter A); set_unfold; intuition congruence).
  rewrite (push_fresh C) by
    (simpl; destruct (dont_filter A), (dont_filter B); set_unfold;
     intuition congruence).
  simpl.
  repeat (progress (unfold before; simpl; rewrite ?HA, ?HB, ?HC; simpl)).
  eexists. split_and!; reflexivity.
Qed.

End RequestQueue.

(** * The theorems on the small installation *)

(** C1 fails when an entry point is not a class: no map is returned. *)
Lemma get_commands_dict_raises :
  _get_commands_dict broken_env (mem resolved_state) 0%nat true
  = Raise (Exception "Invalid entry point broken").
Proof. vm_compute. reflexivity. Qed.

(** With a project module, the project command replaces the built-in one
    of the same name; the plugin and the other built-in commands stay. *)
Lemma get_commands_dict_project :
  ∃ cmds,
    _get_commands_dict project_env (mem resolved_state) 0%nat true = Ok cmds
    ∧ cmds !! "crawl" = Some (instantiate project_crawl_class)
    ∧ cmds !! "plugin" = Some (instantiate plugin_class)
    ∧ cmds !! "version" = Some (instantiate version_class).
Proof.
  destruct (get_commands_dict_spec project_env (mem resolved_state) 0%nat true)
    as (cmds & Hcmds & Hlookup).
  exists cmds. split; [exact Hcmds|].
  rewrite !Hlookup. split_and!; vm_compute; reflexivity.
Defined.

(** C2 fails when two yielded classes share the last component of their
    module name: [bench_class] is yielded and passes the test, yet the
    result holds no instance of it. *)
Lemma bench_class_replaced :
  let d := _get_commands_from_module bench_env "scrapy.commands" true in
  bench_class ∈ _iter_command_classes bench_env "scrapy.commands"
  ∧ accepted true bench_class = true
  ∧ cmdname_of bench_class = "bench"
  ∧ d = {[ "bench" := instantiate bench_helper_class ]}
  ∧ ¬ ∃ k i, d !! k = Some i ∧ cls_id (inst_class i) = cls_id bench_class.
Proof.
  assert (Hd : _get_commands_from_module bench_env "scrapy.commands" true
               = {[ "bench" := instantiate bench_helper_class ]})
    by (vm_compute; reflexivity).
  cbv zeta. split_and!.
  - vm_compute. left.
  - reflexivity.
  - vm_compute. reflexivity.
  - exact Hd.
  - intros (k & i & Hk & Hid). rewrite Hd in Hk.
    apply lookup_singleton_Some in Hk as [_ <-]. discriminate Hid.
Qed.

(** In the usual installation every command module holds one class of its
    own, and each is found under the name of its module. *)
Lemma get_commands_from_module_builtin :
  _get_commands_from_module plain_env "scrapy.commands" true !! "crawl"
  = Some (instantiate crawl_class)
  ∧ _get_commands_from_module plain_env "scrapy.commands" true !! "version"
    = Some (instantiate version_class).
Proof.
  destruct (get_commands_from_module_spec plain_env "scrapy.commands" true)
    as (Hlookup & _).
  rewrite !Hlookup. split; vm_compute; reflexivity.
Defined.

(** C7 fails when a later entry point is not a class: the entry point
    [plugin] loads a class, yet no map is returned. *)
Lemma valid_entry_point_dropped :
  good_entry_point ∈ iter_entry_points broken_env "scrapy.commands"
  ∧ isclass (ep_load good_entry_point) = true
  ∧ _get_commands_from_entry_points broken_env true
    = Raise (Exception "Invalid entry point broken").
Proof. split_and!; [vm_compute; left|reflexivity|vm_compute; reflexivity]. Qed.

Lemma get_commands_from_entry_points_plain :
  ∃ cmds,
    _get_commands_from_entry_points plain_env true = Ok cmds
    ∧ cmds !! "plugin" = Some (instantiate plugin_class).
Proof.
  destruct (get_commands_from_entry_points_spec plain_env true)
    as (cmds & Hcmds & Hlookup & _).
  exists cmds. split; [exact Hcmds|]. rewrite Hlookup. vm_compute. reflexivity.
Defined.

(** C4 fails with the parser of [optparse]: [print_help] is set, the error
    is reported, the process exits with status 2, and the help is not
    printed. *)
Lemma help_not_printed :
  let final :=
    _run_print_help optparse_parser (raise (UsageError "no such option" true))
                    fresh_state in
  final = (Raise (SystemExit 2),
           {| mem := fresh_mem; log := [CallParserError "no such option"] |})
  ∧ CallPrintHelp ∉ log (snd final).
Proof.
  cbv zeta. split; [vm_compute; reflexivity|].
  intros Hin. vm_compute in Hin. apply list_elem_of_singleton in Hin. discriminate Hin.
Qed.

(** With a parser whose [error] returns, the help is printed. *)
Lemma run_print_help_reporting :
  _run_print_help reporting_parser (raise (UsageError "no such option" true))
                  fresh_state
  = (Raise (SystemExit 2),
     {| mem := fresh_mem;
        log := [CallParserError "no such option"; CallPrintHelp] |}).
Proof.
  exact (run_print_help_spec reporting_parser
           (raise (UsageError "no such option" true)) fresh_state).
Defined.

(** C3 fails when [process_options] raises [UsageError]: the command
    [check] is in the registry, [run] is not called, and the exit status is
    2 while the command's [exitcode] is 0. *)
Lemma usage_error_exit :
  let final := execute plain_env (Some ["scrapy"; "check"]) None fresh_state in
  is_Some (_get_commands_from_module plain_env "scrapy.commands" true !! "check")
  ∧ fst final = Raise (SystemExit 2)
  ∧ cmd_exitcode (mem (snd final)) = 0
  ∧ log (snd final)
    = [CheckDeprecatedSettings 0; ImportConf;
       SetParserUsage "scrapy check [options]";
       SetParserDescription "A command";
       CallSetdict 0 [("LOG_ENABLED", "False")] "command";
       SetCmdSettings 0; CallAddOptions; CallParseArgs [];
       CallProcessOptions [] {| profile := None; other_opts := [] |};
       CallParserError "Invalid -a value, use -a NAME=VALUE"].
Proof.
  cbv zeta. split_and!; [|vm_compute; reflexivity..].
  eexists. vm_compute. reflexivity.
Qed.

(** [scrapy crawl foo]: the third path, to the end; [run] sets the
    [exitcode] of the command to 3. *)
Lemma execute_paths_crawl :
  let final := execute plain_env (Some ["scrapy"; "crawl"; "foo"]) None fresh_state in
  resolve_settings plain_env None fresh_state = (Ok 0%nat, resolved_state)
  ∧ _pop_command_name ["scrapy"; "crawl"; "foo"] = (Some "crawl", ["crawl"; "foo"])
  ∧ fst final ≠ Ok tt
  ∧ final = (Raise (SystemExit 3), snd final).
Proof.
  assert (Hres : resolve_settings plain_env None fresh_state
                 = (Ok 0%nat, resolved_state)) by (vm_compute; reflexivity).
  assert (Hpop : _pop_command_name (default (sys_argv plain_env)
                                            (Some ["scrapy"; "crawl"; "foo"]))
                 = (Some "crawl", ["crawl"; "foo"])) by reflexivity.
  destruct (execute_paths plain_env (Some ["scrapy"; "crawl"; "foo"]) None
              fresh_state resolved_state 0%nat (Some "crawl") ["crawl"; "foo"]
              Hres Hpop) as [Hne Hpath].
  cbv zeta. split_and!; [exact Hres|reflexivity|exact Hne|].
  vm_compute in Hpath. vm_compute. exact Hpath.
Defined.

(** [scrapy crawl foo]: [run] is called once, after the three actions. *)
Lemma command_set_up_before_crawl :
  let final := execute plain_env (Some ["scrapy"; "crawl"; "foo"]) None fresh_state in
  plain_registry !! "crawl" = Some (instantiate crawl_class)
  ∧ ∃ tail,
      log (snd final) = log resolved_state ++ tail
      ∧ run_follows_setup 0%nat (instantiate crawl_class) tail
      ∧ ∃ pre post,
          tail = pre ++ CallRun ["foo"] {| profile := None; other_opts := [] |} :: post.
Proof.
  assert (Hres : resolve_settings plain_env None fresh_state
                 = (Ok 0%nat, resolved_state)) by (vm_compute; reflexivity).
  assert (Hcmds : _get_commands_dict plain_env (mem resolved_state) 0%nat
                    (inside_project plain_env) = Ok plain_registry)
    by (vm_compute; reflexivity).
  assert (Hpop : _pop_command_name (default (sys_argv plain_env)
                                            (Some ["scrapy"; "crawl"; "foo"]))
                 = (Some "crawl", ["crawl"; "foo"])) by reflexivity.
  assert (Hcmd : plain_registry !! str (Some "crawl") = Some (instantiate crawl_class))
    by (vm_compute; reflexivity).
  destruct (command_set_up_before_run plain_env (Some ["scrapy"; "crawl"; "foo"])
              None fresh_state resolved_state
              (snd (execute plain_env (Some ["scrapy"; "crawl"; "foo"]) None fresh_state))
              0%nat plain_registry (Some "crawl") ["crawl"; "foo"]
              (instantiate crawl_class)
              (fst (execute plain_env (Some ["scrapy"; "crawl"; "foo"]) None fresh_state))
              Hres Hcmds Hpop eq_refl Hcmd (surjective_pairing _))
    as (_ & _ & tail & Hlog & Htrace & Hrun).
  cbv zeta. split; [exact Hcmd|]. exists tail. split_and!; [exact Hlog|exact Htrace|].
  destruct (Hrun {| profile := None; other_opts := [] |} ["foo"]
              (mem (prepared 0%nat "crawl" (instantiate crawl_class) resolved_state))
              eq_refl eq_refl) as (_ & _ & Hcalled).
  exact Hcalled.
Defined.

(** The scenario of the spec on three concrete requests. *)
Lemma queue_pop_order_ABC :
  ∃ q',
    Scheduler.pop_all Scheduler.unlimited 3
      (Scheduler.push request_C
         (Scheduler.push request_B (Scheduler.push request_A Scheduler.empty)))
    = ([request_A; request_C; request_B], q')
    ∧ Scheduler.is_empty q' = true
    ∧ fst (Scheduler.pop_ready Scheduler.unlimited q') = None.
Proof.
  apply (queue_pop_order request_A request_B request_C);
    [reflexivity|reflexivity|reflexivity|discriminate|discriminate|discriminate].
Defined.

(** [scrapy -x crawl foo]: the flag before the command is what is deleted. *)
Lemma pop_command_name_after_flag :
  _pop_command_name ["scrapy"; "-x"; "crawl"; "foo"]
  = (Some "crawl", ["scrapy"; "crawl"; "foo"]).
Proof. reflexivity. Qed.

Lemma pop_command_name_plain :
  _pop_command_name ["scrapy"; "crawl"; "foo"] = (Some "crawl", ["crawl"; "foo"]).
Proof. reflexivity. Qed.

Lemma pop_command_name_flags_only :
  _pop_command_name ["scrapy"; "-h"; "--version"] = (None, ["scrapy"; "-h"; "--version"]).
Proof. reflexivity. Qed.

(** C10 fails for a class imported into one walked module and defined in
    another: the class of [crawl] is held by the walked module
    [scrapy.commands.version], which has only imported it, yet it is
    yielded and registered as [crawl]. *)
Lemma imported_class_registered :
  version_module ∈ walk_modules plain_env "scrapy.commands"
  ∧ ObjClass crawl_class ∈ (mod_vars version_module).*2
  ∧ issubclass crawl_class ScrapyCommand = true
  ∧ cls_module crawl_class ≠ mod_name version_module
  ∧ crawl_class ∈ _iter_command_classes plain_env "scrapy.commands"
  ∧ _get_commands_from_module plain_env "scrapy.commands" true !! "crawl"
    = Some (instantiate crawl_class).
Proof.
  split_and!.
  - vm_compute. do 2 right. left.
  - vm_compute. left.
  - reflexivity.
  - discriminate.
  - vm_compute. left.
  - vm_compute. reflexivity.
Qed.

(** The class of the plugin is held by the walked module
    [scrapy.commands.shell] only as an import: it is not yielded and is not
    registered. *)
Lemma imported_class_not_registered :
  shell_module ∈ walk_modules imports_env "scrapy.commands"
  ∧ ObjClass plugin_class ∈ (mod_vars shell_module).*2
  ∧ (plugin_class ∉ _iter_command_classes imports_env "scrapy.commands")
  ∧ (∀ inproject k,
       (_get_commands_from_module imports_env "scrapy.commands" inproject !! k)
       ≠ Some (instantiate plugin_class)).
Proof.
  split; [vm_compute; do 4 right; left|]. split; [vm_compute; left|].
  apply (iter_command_classes_spec imports_env "scrapy.commands" plugin_class).
  intros module Hmodule _.
  assert (Hname : mod_name module ∈ mod_name <$> walk_modules imports_env "scrapy.commands")
    by (by apply list_elem_of_fmap_2).
  intros Heq. rewrite <- Heq in Hname. vm_compute in Hname.
  repeat match goal with
         | H : list_elem_of _ _ |- _ => inversion H; clear H; subst
         | H : _ ∈ _ :: _ |- _ => inversion H; clear H; subst
         | H : _ ∈ [] |- _ => inversion H
         end.
Defined.

(** A name of four characters and five bytes is padded with nine spaces. *)
Lemma ljust13_characters :
  String.length cafe = 5%nat
  ∧ char_length cafe = 4%nat
  ∧ ljust13 cafe = cafe +:+ "         "
  ∧ char_length (ljust13 cafe) = 13%nat.
Proof. split_and!; reflexivity. Qed.

(** The class of [crawl], imported into the module [version], is yielded
    once, from the module that defines it; the base class is not yielded. *)
Lemma iter_command_classes_builtin :
  cls_id <$> _iter_command_classes plain_env "scrapy.commands" = [1; 2; 3]%nat.
Proof. vm_compute. reflexivity. Qed.

(** With [scrapy.conf] imported and holding settings, these are taken. *)
Lemma resolve_settings_singleton :
  let s := {| mem := set_conf true (Some 0%nat) (set_heap {[ 0%nat := ∅ ]} fresh_mem);
              log := [] |} in
  fst (resolve_settings plain_env None s) = Ok 0%nat
  ∧ heap (mem (snd (resolve_settings plain_env None s))) = {[ 0%nat := ∅ ]}.
Proof. cbv zeta. split; vm_compute; reflexivity. Qed.

(** Without it, the project settings are taken, with [EDITOR] from the
    environment, and stored in [scrapy.conf.settings]. *)
Lemma resolve_settings_project :
  fst (resolve_settings plain_env None fresh_state) = Ok 0%nat
  ∧ conf_settings (mem resolved_state) = Some 0%nat
  ∧ heap (mem resolved_state)
    = {[ 0%nat := {[ "BOT_NAME" := "mybot"; "COMMANDS_MODULE" := "mybot.commands";
                    "EDITOR" := "vi" ]} ]}.
Proof. split_and!; vm_compute; reflexivity. Qed.

(** * Further properties *)

(** ** Module names and registry keys *)

(** The character [c] occurs in [s]. *)
Fixpoint has_char (c : ascii) (s : string) : bool :=
  match s with
  | EmptyString => false
  | String c' s' => Ascii.eqb c' c || has_char c s'
  end.

Lemma split_cons (sep : ascii) (s : string) :
  ∃ w ws, split sep s = w :: ws.
Proof.
  destruct s as [|c s]; simpl; [by eexists _, _|].
  destruct (Ascii.eqb c sep); [by eexists _, _|].
  destruct (split sep s); by eexists _, _.
Qed.

Lemma concat_cons_cons (sep x y : string) (l : list string) :
  String.concat sep (x :: y :: l) = x +:+ sep +:+ String.concat sep (y :: l).
Proof. reflexivity. Qed.

(** Joining the components of [s.split(sep)] with [sep] gives [s] back. *)
Lemma split_join (sep : ascii) (s : string) :
  String.concat (String sep EmptyString) (split sep s) = s.
Proof.
  induction s as [|c s IH]; [done|]. simpl.
  destruct (split_cons sep s) as (w & ws & Hsplit). rewrite Hsplit in IH |- *.
  destruct (Ascii.eqb_spec c sep) as [->|Hne].
  - by rewrite concat_cons_cons, IH.
  - destruct ws as [|w' ws].
    + simpl in IH |- *. by rewrite IH.
    + by rewrite <- IH, !concat_cons_cons.
Qed.

Lemma split_no_sep (sep : ascii) (s : string) :
  Forall (fun w => has_char sep w = false) (split sep s).
Proof.
  induction s as [|c s IH]; simpl; [by repeat constructor|].
  destruct (Ascii.eqb c sep) eqn:Hc; [by constructor|].
  destruct (split_cons sep s) as (w & ws & Hsplit). rewrite Hsplit in IH |- *.
  apply Forall_cons in IH as [Hw Hws]. constructor; [|done].
  simpl. by rewrite Hc, Hw.
Qed.

Lemma split_whole (sep : ascii) (s : string) :
  has_char sep s = false → split sep s = [s].
Proof.
  induction s as [|c s IH]; [done|]. simpl.
  destruct (Ascii.eqb c sep); [done|]. simpl. intros Hs. by rewrite IH.
Qed.

Lemma split_app (sep : ascii) (a b : string) :
  split sep (a +:+ String sep b) = split sep a ++ split sep b.
Proof.
  induction a as [|c a IH]; simpl.
  - by rewrite Ascii.eqb_refl.
  - destruct (Ascii.eqb c sep); [by rewrite IH|]. rewrite IH.
    by destruct (split_cons sep a) as (w & ws & ->).
Qed.

Lemma list_last_app_cons {A : Type} (l1 l2 : list A) (x d : A) :
  List.last (l1 ++ x :: l2) d = List.last (x :: l2) d.
Proof.
  induction l1 as [|y l1 IH]; [done|].
  rewrite <- IH. simpl. by destruct (l1 ++ x :: l2) eqn:Happ; [destruct l1|].
Qed.

Lemma list_last_in {A : Type} (x : A) (l : list A) (d : A) :
  List.last (x :: l) d ∈ x :: l.
Proof.
  revert x. induction l as [|y l IH]; intros x; [left|].
  right. apply (IH y).
Qed.

Lemma last_component_no_dot (name : string) :
  has_char "." (last_component name) = false.
Proof.
  unfold last_component. pose proof (split_no_sep "." name) as Hall.
  destruct (split_cons "." name) as (w & ws & Hsplit). rewrite Hsplit in Hall |- *.
  rewrite Forall_forall in Hall. apply Hall, list_last_in.
Qed.

(** The last component of a dotted name: what precedes a dot does not
    matter, a name without dots is its own last component, and the
    component never contains a dot. *)
Theorem last_component_spec (package name : string) :
  last_component (package +:+ "." +:+ name) = last_component name
  ∧ (has_char "." name = false → last_component name = name)
  ∧ has_char "." (last_component name) = false.
Proof.
  split_and!; [| |apply last_component_no_dot].
  - unfold last_component.
    change (package +:+ "." +:+ name) with (package +:+ String "." name).
    rewrite split_app.
    destruct (split_cons "." name) as (w & ws & ->). apply list_last_app_cons.
  - intros Hname. unfold last_component. by rewrite split_whole.
Qed.

Section MoreDiscovery.

Context {Settings : Type} {settings_ops : SettingsOps Settings}.
Variable env : Env Settings.

(** ** What the option parser is left with *)

Lemma pop_loop_flags (argv flags rest : list string) (i : nat) :
  Forall is_flag flags →
  pop_loop argv (flags ++ rest) i = pop_loop argv rest (i + length flags)%nat.
Proof.
  intros Hflags. revert i.
  induction Hflags as [|flag flags Hflag _ IH]; intros i; simpl.
  - by rewrite Nat.add_0_r.
  - unfold is_flag in Hflag. rewrite Hflag. simpl. rewrite IH. f_equal. lia.
Qed.

(** When the command name is the first argument, [_pop_command_name]
    deletes the program name: [argv[1:]] is then what follows the command
    name. *)
Theorem pop_command_first (prog name : string) (rest : list string) :
  startswith name "-" = false →
  _pop_command_name (prog :: name :: rest) = (Some name, name :: rest)
  ∧ drop 1 (snd (_pop_command_name (prog :: name :: rest))) = rest.
Proof.
  intros Hname. unfold _pop_command_name. simpl. by rewrite Hname.
Qed.

(** When flags come before the command name, [_pop_command_name] deletes
    the last of them and leaves the command name in [argv]: [argv[1:]] is
    then the other flags, the command name and what follows it. *)
Theorem pop_command_after_flags (prog flag name : string)
    (flags rest : list string) :
  Forall is_flag flags →
  is_flag flag →
  startswith name "-" = false →
  _pop_command_name (prog :: flags ++ flag :: name :: rest)
  = (Some name, prog :: flags ++ name :: rest).
Proof.
  intros Hflags Hflag Hname. unfold _pop_command_name.
  change (drop 1 (prog :: flags ++ flag :: name :: rest))
    with (flags ++ flag :: name :: rest).
  rewrite pop_loop_flags by done. cbn [pop_loop].
  unfold is_flag in Hflag. rewrite Hflag, Hname. cbn [negb].
  f_equal.
  replace (S (0 + length flags)) with (length (prog :: flags)) by done.
  change (prog :: flags ++ flag :: name :: rest)
    with ((prog :: flags) ++ flag :: name :: rest).
  by rewrite delete_middle.
Qed.

(** ** Commands of a module, inside and outside a project *)

Lemma module_lookup (module : string) (inproject : bool) (k : string) :
  _get_commands_from_module env module inproject !! k
  = instantiate <$> last (filter (stored_under inproject k)
                                 (_iter_command_classes env module)).
Proof.
  unfold _get_commands_from_module. rewrite commands_loop_lookup.
  destruct (last _); [done|]. by rewrite lookup_empty.
Qed.

(** Outside a project the registry of a module holds only commands that
    do not require one, and every name it binds is bound inside a project
    too; inside a project the name of every yielded class is bound. *)
Theorem module_commands_outside_project (module : string) :
  let outside := _get_commands_from_module env module false in
  let inside := _get_commands_from_module env module true in
  (∀ k i, outside !! k = Some i → requires_project (inst_class i) = false)
  ∧ (∀ k, is_Some (outside !! k) → is_Some (inside !! k))
  ∧ (∀ c, c ∈ _iter_command_classes env module → is_Some (inside !! cmdname_of c)).
Proof.
  cbv zeta. split_and!.
  - intros k i. rewrite module_lookup.
    destruct (last _) as [c|] eqn:Hlast; [|done]. intros [= <-].
    apply last_Some_elem_of, list_elem_of_filter in Hlast as [[Hacc _] _].
    unfold accepted in Hacc. simpl in *. by destruct (requires_project c).
  - intros k. rewrite !module_lookup. intros [i Hi].
    destruct (last (filter (stored_under false k) _)) as [c|] eqn:Hlast; [|done].
    apply last_Some_elem_of, list_elem_of_filter in Hlast as [[_ Hkey] Hin].
    apply fmap_is_Some, last_is_Some. intros Hnil.
    eapply (filter_nil_not_elem_of _ _ c); [exact Hnil| |exact Hin]. by split.
  - intros c Hin. rewrite module_lookup.
    apply fmap_is_Some, last_is_Some. intros Hnil.
    eapply (filter_nil_not_elem_of _ _ c); [exact Hnil| |exact Hin]. by split.
Qed.

(** A command found in a module is registered under a name without dots. *)
Theorem module_command_names (module : string) (inproject : bool) (k : string)
    (i : Instance Settings) :
  _get_commands_from_module env module inproject !! k = Some i →
  has_char "." k = false ∧ k = last_component (cls_module (inst_class i)).
Proof.
  rewrite module_lookup.
  destruct (last _) as [c|] eqn:Hlast; [|done]. intros [= <-].
  apply last_Some_elem_of, list_elem_of_filter in Hlast as [[_ <-] _].
  split; [|done]. apply last_component_no_dot.
Qed.

(** ** Commands of entry points *)

(** The commands of the entry points are not filtered: when every entry
    point loads a class, the names are distinct and no project module is
    configured, each name is bound to an instance of its class, inside or
    outside a project and whatever [requires_project] says, also when a
    built-in command has the same name. *)
Theorem entry_point_commands_kept (m : Mem Settings) (settings : loc)
    (inproject : bool) :
  let eps := iter_entry_points env "scrapy.commands" in
  Forall (fun ep => isclass (ep_load ep) = true) eps →
  NoDup (ep_name <$> eps) →
  truthy (settings_get m settings "COMMANDS_MODULE") = false →
  ∃ cmds,
    _get_commands_dict env m settings inproject = Ok cmds
    ∧ ∀ ep, ep ∈ eps →
        ∃ obj, ep_load ep = ObjClass obj
               ∧ cmds !! ep_name ep = Some (instantiate obj).
Proof.
  intros eps Hclasses Hnodup Hmodule.
  unfold _get_commands_dict, _get_commands_from_entry_points,
    _get_commands_from_entry_points_in. fold eps.
  pose proof (entry_points_loop_spec eps ∅) as Hloop.
  destruct (list_find not_a_class eps) as [[j bad]|] eqn:Hfind.
  { apply list_find_Some in Hfind as (Hj & Hbad & _).
    rewrite Forall_forall in Hclasses.
    assert (bad ∈ eps) as Hin by (by eapply list_elem_of_lookup_2).
    apply Hclasses in Hin. unfold not_a_class in Hbad. congruence. }
  destruct Hloop as (plugins & -> & Hplugins). rewrite Hmodule.
  eexists. split; [done|]. intros ep Hep.
  rewrite Forall_forall in Hclasses. specialize (Hclasses ep Hep).
  destruct (ep_load ep) as [obj|repr] eqn:Hload; [|done].
  exists obj. split; [done|]. unfold update. rewrite lookup_union, Hplugins.
  apply list_elem_of_split in Hep as (pre & post & Heps).
  rewrite Heps, filter_app, filter_cons, decide_True by done.
  replace (filter (named (ep_name ep)) post) with (@nil (EntryPoint Settings)).
  { rewrite last_snoc. unfold ep_instance. rewrite Hload.
    by destruct (_get_commands_from_module _ _ _ !! _). }
  symmetry. apply filter_none. intros ep' Hep' Hname.
  rewrite Heps, fmap_app, fmap_cons in Hnodup.
  apply NoDup_app in Hnodup as (_ & _ & Hnodup).
  apply NoDup_cons in Hnodup as [Hnotin _]. apply Hnotin.
  unfold named in Hname. rewrite <- Hname. by apply list_elem_of_fmap_2.
Qed.

End MoreDiscovery.

Section MoreDispatch.

Context {Settings : Type} {settings_ops : SettingsOps Settings}.
Variable env : Env Settings.

Notation "x <- m ;; k" := (bind m (fun x => k))
  (at level 100, m at next level, right associativity).
Notation "m ;; k" := (bind m (fun _ => k))
  (at level 100, right associativity).

(** ** The wrapper and the profiler *)

(** [_run_print_help] returns exactly when the wrapped call returns, and
    then in the same state: a [UsageError] is never swallowed. *)
Theorem run_print_help_returns (parser : Parser Settings) (func : M Settings unit)
    (s s' : State Settings) :
  _run_print_help parser func s = (Ok tt, s') ↔ func s = (Ok tt, s').
Proof.
  unfold _run_print_help.
  destruct (func s) as [[[]|[msg print_help|code|msg]] s1]; try done.
  split; [|done]. intros Hh.
  by apply handle_usage_error_outcome in Hh as [Hne _].
Qed.

(** [_run_command] calls [run] once, on the memory it is given, and ends
    as [run] ends, with or without [--profile]; with it, the statistics are
    dumped only when [run] returns. *)
Theorem run_command_outcome (cmd : Instance Settings) (args : list string)
    (opts : Opts) (s : State Settings) :
  let '(r, m') := run (inst_class cmd) args opts (mem s) in
  _run_command cmd args opts s
  = (r, {| mem := m';
           log := log s ++ profile_start opts ++ [CallRun args opts]
                  ++ match r with Ok _ => profile_end opts | Raise _ => [] end |}).
Proof.
  destruct s as [m lg].
  unfold _run_command, _run_command_profiled, cmd_run, profile_start, profile_end,
    bind, emit, call, ret. simpl.
  destruct (truthy (profile opts)); simpl;
    destruct (run (inst_class cmd) args opts m) as [[[]|e] m']; simpl;
    by rewrite <- ?app_assoc, ?app_nil_r.
Qed.

(** ** Settings *)

Lemma resolve_settings_returns (settings : option loc) (s : State Settings) :
  ∃ l s1,
    resolve_settings env settings s = (Ok l, s1)
    ∧ conf_imported (mem s1) = true
    ∧ conf_settings (mem s1) = Some l.
Proof.
  destruct s as [m lg].
  unfold resolve_settings, settings_from_conf, settings_from_project,
    publish_settings, alloc, mutate, modify_mem, get_mem, emit, bind, ret.
  destruct settings as [given|]; simpl; [by eexists _, _|].
  destruct (conf_imported m); simpl;
    [destruct (conf_settings m) as [singleton|]; simpl; [by eexists _, _|]|];
    destruct (environ env !! "EDITOR"); simpl; by eexists _, _.
Qed.

(** Once the settings are resolved, resolving again with [settings=None]
    takes the same object and leaves the memory as it is: a second call of
    [execute] in the process reuses the settings of the first. *)
Theorem resolve_settings_reuse (settings : option loc) (s s1 : State Settings)
    (l : loc) :
  resolve_settings env settings s = (Ok l, s1) →
  ∃ s2, resolve_settings env None s1 = (Ok l, s2) ∧ mem s2 = mem s1.
Proof.
  intros Hres.
  destruct (resolve_settings_returns settings s) as (l' & s1' & Hres' & Himp & Hconf).
  rewrite Hres in Hres'. injection Hres' as <- <-.
  destruct s1 as [m1 lg1]. simpl in Himp, Hconf.
  unfold resolve_settings, settings_from_conf, settings_from_project,
    publish_settings, modify_mem, get_mem, emit, bind, ret. simpl.
  rewrite Himp, Hconf. simpl. eexists. split; [done|]. simpl.
  destruct m1. simpl in *. by subst.
Qed.

(** ** [execute] never returns *)

(** Whatever the arguments and the state, [execute] ends with an exception:
    [SystemExit] or what the discovery, the parser or the command
    raised. *)
Theorem execute_never_returns (argv : option (list string))
    (settings : option loc) (s : State Settings) :
  ∃ e, fst (execute env argv settings s) = Raise e.
Proof.
  destruct (resolve_settings_returns settings s) as (l & s1 & Hres & _).
  rewrite (execute_dispatch env argv settings s s1 l Hres).
  set (argv0 := default (sys_argv env) argv).
  destruct (_get_commands_dict env (mem s1) l (inside_project env))
    as [cmds|e] eqn:Hcmds.
  2: { exists e. unfold dispatch, bind at 1 2, get_mem, outcome. by rewrite Hcmds. }
  destruct (_pop_command_name argv0) as [cmdname argv'] eqn:Hpop.
  destruct (truthy cmdname) eqn:Htruthy.
  2: { destruct (prints_commands env l (inside_project env) s1 cmds Hcmds)
         as [lines Hlines].
       exists (SystemExit 0). unfold dispatch, bind at 1 2, get_mem, outcome.
       rewrite Hcmds, Hpop, Htruthy. simpl.
       by rewrite (bind_Ok _ _ _ _ _ Hlines). }
  destruct (cmds !! str cmdname) as [cmd|] eqn:Hcmd.
  2: { destruct (prints_unknown_command env l (str cmdname) (inside_project env) s1)
         as [lines Hlines].
       exists (SystemExit 2). unfold dispatch, bind at 1 2, get_mem, outcome.
       rewrite Hcmds, Hpop, Htruthy. simpl. rewrite Hcmd.
       by rewrite (bind_Ok _ _ _ _ _ Hlines). }
  rewrite (dispatch_selected env l argv0 argv' cmdname cmds cmd s1) by done.
  destruct (run_prepared _ _ _ _ _) as [r s'] eqn:Hrun.
  apply selected_outcome in Hrun as [Hne _]. simpl.
  destruct r as [[]|e]; [done|by exists e].
Qed.

(** ** What is printed *)

Lemma char_length_append (a b : string) :
  char_length (a +:+ b) = (char_length a + char_length b)%nat.
Proof.
  induction a as [|c a IH]; [done|].
  change (String c a +:+ b) with (String c (a +:+ b)). simpl.
  destruct (is_continuation c); by rewrite IH.
Qed.

Lemma concat_empty_cons (x : string) (l : list string) :
  String.concat "" (x :: l) = x +:+ String.concat "" l.
Proof.
  destruct l as [|y l]; [|done]. simpl.
  induction x as [|c x IH]; [done|].
  change (String c x +:+ "") with (String c (x +:+ "")). by f_equal.
Qed.

Lemma char_length_spaces (n : nat) :
  char_length (String.concat "" (replicate n " ")) = n.
Proof.
  induction n as [|n IH]; [done|].
  change (replicate (S n) " ") with (" " :: replicate n " ").
  by rewrite concat_empty_cons, char_length_append, IH.
Qed.

(** The name column of the listing is 13 characters wide, whatever the
    number of bytes of the name; a longer name is left as it is. *)
Lemma ljust13_char_length (name : string) :
  char_length (ljust13 name) = Nat.max 13 (char_length name).
Proof.
  unfold ljust13. rewrite char_length_append, char_length_spaces. lia.
Qed.

#[local] Instance name_le_total : Total (@name_le Settings).
Proof. intros x y. apply String.leb_total. Qed.

#[local] Instance name_le_trans : Transitive (@name_le Settings).
Proof.
  intros x y z Hxy Hyz. unfold name_le in *. apply Is_true_true.
  apply Is_true_true in Hxy, Hyz.
  exact (transitivity (R := String.le) Hxy Hyz).
Qed.

(** The listing shows every command of the registry once, in ascending
    order of the names. *)
Theorem sorted_items_spec (cmds : gmap string (Instance Settings)) :
  sorted_items cmds ≡ₚ map_to_list cmds
  ∧ StronglySorted name_le (sorted_items cmds)
  ∧ NoDup (sorted_items cmds).*1
  ∧ ∀ name cmd, (name, cmd) ∈ sorted_items cmds ↔ cmds !! name = Some cmd.
Proof.
  assert (Hperm : sorted_items cmds ≡ₚ map_to_list cmds)
    by apply merge_sort_Permutation.
  split_and!.
  - done.
  - apply (StronglySorted_merge_sort name_le).
  - rewrite Hperm. apply NoDup_fst_map_to_list.
  - intros name cmd. rewrite Hperm. apply elem_of_map_to_list.
Qed.

(** The first line of the listing and of the unknown-command message. *)
Definition header_line (m : Mem Settings) (settings : loc) (inproject : bool) : string :=
  if inproject then
    "Scrapy " +:+ scrapy_version env +:+ " - project: "
    +:+ str (settings_get m settings "BOT_NAME") +:+ nl
  else "Scrapy " +:+ scrapy_version env +:+ " - no active project" +:+ nl.

Definition command_line (item : string * Instance Settings) : string :=
  "  " +:+ ljust13 (fst item) +:+ " " +:+ short_desc (inst_class (snd item)).

(** The lines of the listing. *)
Definition listing (m : Mem Settings) (settings : loc) (inproject : bool)
    (cmds : gmap string (Instance Settings)) : list string :=
  [header_line m settings inproject;
   "Usage:";
   "  scrapy <command> [options] [args]" +:+ nl;
   "Available commands:"]
  ++ (command_line <$> sorted_items cmds)
  ++ (if inproject then []
      else [""; "  [ more ]      More commands available when run from project directory"])
  ++ [""; "Use " +:+ dq +:+ "scrapy <command> -h" +:+ dq
          +:+ " to see more info about a command"].

Lemma print_command_lines_output (items : list (string * Instance Settings))
    (s : State Settings) :
  print_command_lines items s
  = (Ok tt, {| mem := set_stdout (stdout (mem s) ++ (command_line <$> items)) (mem s);
               log := log s |}).
Proof.
  revert s. induction items as [|[name cmd] items IH]; intros [m lg]; simpl.
  - unfold ret, set_stdout. rewrite app_nil_r. by destruct m.
  - unfold bind, print, modify_mem. simpl. rewrite IH. unfold set_stdout. simpl.
    by rewrite <- app_assoc.
Qed.

Lemma print_header_output (settings : loc) (inproject : bool) (s : State Settings) :
  _print_header env settings inproject s
  = (Ok tt, {| mem := set_stdout (stdout (mem s)
                                  ++ [header_line (mem s) settings inproject]) (mem s);
               log := log s |}).
Proof. unfold _print_header, header_line. by destruct inproject. Qed.

Lemma print_commands_output (settings : loc) (inproject : bool) (s : State Settings)
    (cmds : gmap string (Instance Settings)) :
  _get_commands_dict env (mem s) settings inproject = Ok cmds →
  _print_commands env settings inproject s
  = (Ok tt, {| mem := set_stdout (stdout (mem s)
                                  ++ listing (mem s) settings inproject cmds) (mem s);
               log := log s |}).
Proof.
  intros Hcmds.
  unfold _print_commands, bind at 1. rewrite print_header_output.
  unfold bind at 1 2 3 4, print at 1 2 3, modify_mem, get_mem, outcome. simpl.
  rewrite (get_commands_dict_heap env _ (mem s)) by done. rewrite Hcmds.
  unfold bind at 1. cbn beta iota. unfold bind at 1.
  rewrite print_command_lines_output.
  unfold listing, set_stdout.
  destruct inproject; unfold bind, print, modify_mem, ret; simpl;
    repeat (rewrite <- app_assoc; simpl); reflexivity.
Qed.

Lemma pop_flags_only (argv : list string) :
  Forall is_flag (drop 1 argv) → _pop_command_name argv = (None, argv).
Proof.
  intros Hflags. unfold _pop_command_name.
  rewrite <- (app_nil_r (drop 1 argv)). by rewrite pop_loop_flags.
Qed.

(** Without a command name ([argv] holds only flags after the program
    name) [execute] prints the listing and exits with status 0: the option
    parser is not called, no command is touched, and nothing but standard
    output changes. *)
Theorem flags_only_lists_commands (argv : option (list string))
    (settings : option loc) (s s1 : State Settings) (l : loc)
    (cmds : gmap string (Instance Settings)) :
  resolve_settings env settings s = (Ok l, s1) →
  _get_commands_dict env (mem s1) l (inside_project env) = Ok cmds →
  Forall is_flag (drop 1 (default (sys_argv env) argv)) →
  execute env argv settings s
  = (Raise (SystemExit 0),
     {| mem := set_stdout (stdout (mem s1)
                           ++ listing (mem s1) l (inside_project env) cmds) (mem s1);
        log := log s1 |}).
Proof.
  intros Hres Hcmds Hflags.
  rewrite (execute_dispatch env argv settings s s1 l Hres).
  unfold dispatch, bind at 1 2, get_mem, outcome.
  rewrite Hcmds, (pop_flags_only _ Hflags). simpl.
  by rewrite (bind_Ok _ _ _ _ _ (print_commands_output _ _ _ _ Hcmds)).
Qed.

(** An empty command name is taken for none: [execute] prints the listing
    and exits with status 0, also when the registry binds the empty
    name. *)
Theorem empty_name_lists_commands (argv : option (list string))
    (settings : option loc) (s s1 : State Settings) (l : loc)
    (cmds : gmap string (Instance Settings)) (prog : string)
    (flags rest : list string) :
  resolve_settings env settings s = (Ok l, s1) →
  _get_commands_dict env (mem s1) l (inside_project env) = Ok cmds →
  default (sys_argv env) argv = prog :: flags ++ "" :: rest →
  Forall is_flag flags →
  execute env argv settings s
  = (Raise (SystemExit 0),
     {| mem := set_stdout (stdout (mem s1)
                           ++ listing (mem s1) l (inside_project env) cmds) (mem s1);
        log := log s1 |}).
Proof.
  intros Hres Hcmds Hargv Hflags.
  rewrite (execute_dispatch env argv settings s s1 l Hres), Hargv.
  unfold dispatch, bind at 1 2, get_mem, outcome. rewrite Hcmds.
  unfold _pop_command_name.
  change (drop 1 (prog :: flags ++ "" :: rest)) with (flags ++ "" :: rest).
  rewrite pop_loop_flags by done. simpl.
  by rewrite (bind_Ok _ _ _ _ _ (print_commands_output _ _ _ _ Hcmds)).
Qed.

(** For a name that is in no source of commands [execute] prints the
    header, the name and a hint, and exits with status 2; nothing but
    standard output changes. *)
Theorem unknown_command_message (argv : option (list string))
    (settings : option loc) (s s1 : State Settings) (l : loc)
    (cmds : gmap string (Instance Settings)) (cmdname : string)
    (argv' : list string) :
  resolve_settings env settings s = (Ok l, s1) →
  _get_commands_dict env (mem s1) l (inside_project env) = Ok cmds →
  _pop_command_name (default (sys_argv env) argv) = (Some cmdname, argv') →
  cmdname ≠ "" →
  cmds !! cmdname = None →
  execute env argv settings s
  = (Raise (SystemExit 2),
     {| mem := set_stdout
                 (stdout (mem s1)
                  ++ [header_line (mem s1) l (inside_project env);
                      "Unknown command: " +:+ cmdname +:+ nl;
                      "Use " +:+ dq +:+ "scrapy" +:+ dq +:+ " to see available commands"])
                 (mem s1);
        log := log s1 |}).
Proof.
  intros Hres Hcmds Hpop Hname Hcmd.
  rewrite (execute_dispatch env argv settings s s1 l Hres).
  unfold dispatch, bind at 1 2, get_mem, outcome. rewrite Hcmds, Hpop.
  assert (truthy (Some cmdname) = true) as ->.
  { simpl. by destruct (String.eqb_spec cmdname ""). }
  simpl. rewrite Hcmd.
  unfold _print_unknown_command, bind at 1 2. rewrite print_header_output.
  unfold bind, print, modify_mem, sys_exit, raise, set_stdout. simpl.
  by repeat (rewrite <- app_assoc; simpl).
Qed.

(** ** What the command receives *)

Lemma run_prepared_log (settings : loc) (parser : Parser Settings)
    (cmd : Instance Settings) (argv : list string) (s s' : State Settings)
    (r : result unit) :
  run_prepared settings parser cmd argv s = (r, s') →
  ∃ more, log s' = log s ++ CallParseArgs (drop 1 argv) :: more.
Proof.
  rewrite run_prepared_spec. cbv zeta.
  destruct (p_parse_args _ _ _) as [[opts args]|e].
  2: { intros [= <- <-]. by exists []. }
  destruct (process_options _ _ _ _) as [[[]|[msg print_help|code|msg]] m3].
  2: { intros (_ & _ & evs & Hlog & _)%handle_usage_error_outcome.
       eexists. rewrite Hlog. simpl. by rewrite <- !app_assoc. }
  2,3: intros [= <- <-]; eexists; simpl; by rewrite <- !app_assoc.
  unfold ready. simpl.
  destruct (run _ _ _ _) as [[[]|[msg print_help|code|msg]] m5].
  2: { intros (_ & _ & evs & Hlog & _)%handle_usage_error_outcome.
       eexists. rewrite Hlog. simpl. by rewrite <- !app_assoc. }
  all: intros [= <- <-]; eexists; simpl; by rewrite <- !app_assoc.
Qed.

(** The actions of [execute] on a command found in the registry, up to the
    parsing of [args]. *)
Definition setup_log (settings : loc) (cmdname : string) (cmd : Instance Settings)
    (args : list string) : list Event :=
  [SetParserUsage ("scrapy " +:+ cmdname +:+ " " +:+ syntax (inst_class cmd));
   SetParserDescription (long_desc (inst_class cmd));
   CallSetdict settings (default_settings (inst_class cmd)) "command";
   SetCmdSettings settings;
   CallAddOptions;
   CallParseArgs args].

Lemma selected_log (settings : loc) (argv argv' : list string) (cmdname : string)
    (cmds : gmap string (Instance Settings)) (cmd : Instance Settings)
    (s s' : State Settings) (r : result unit) :
  _get_commands_dict env (mem s) settings (inside_project env) = Ok cmds →
  _pop_command_name argv = (Some cmdname, argv') →
  cmdname ≠ "" →
  cmds !! cmdname = Some cmd →
  dispatch env settings argv s = (r, s') →
  ∃ more, log s' = log s ++ setup_log settings cmdname cmd (drop 1 argv') ++ more.
Proof.
  intros Hcmds Hpop Hname Hcmd Hrun.
  rewrite (dispatch_selected env settings argv argv' (Some cmdname) cmds cmd s)
    in Hrun; [|done|done| |done].
  2: { simpl. by destruct (String.eqb_spec cmdname ""). }
  apply run_prepared_log in Hrun as [more Hlog]. exists more.
  rewrite Hlog. unfold setup_log. simpl. by rewrite <- !app_assoc.
Qed.

(** [scrapy name args...]: the option parser is given exactly the arguments
    that follow the command name. *)
Theorem parser_gets_arguments (argv : option (list string)) (settings : option loc)
    (s s1 s' : State Settings) (l : loc) (cmds : gmap string (Instance Settings))
    (prog cmdname : string) (rest : list string) (cmd : Instance Settings)
    (r : result unit) :
  resolve_settings env settings s = (Ok l, s1) →
  _get_commands_dict env (mem s1) l (inside_project env) = Ok cmds →
  default (sys_argv env) argv = prog :: cmdname :: rest →
  startswith cmdname "-" = false →
  cmdname ≠ "" →
  cmds !! cmdname = Some cmd →
  execute env argv settings s = (r, s') →
  ∃ more, log s' = log s1 ++ setup_log l cmdname cmd rest ++ more.
Proof.
  intros Hres Hcmds Hargv Hflag Hname Hcmd Hexec.
  rewrite (execute_dispatch env argv settings s s1 l Hres), Hargv in Hexec.
  apply (selected_log l _ (cmdname :: rest) cmdname cmds cmd) in Hexec; try done.
  unfold _pop_command_name. simpl. by rewrite Hflag.
Qed.

(** [scrapy flags... flag name args...]: the last flag before the command
    name is lost and the option parser is given the other flags, the
    command name itself and the arguments that follow it. *)
Theorem parser_gets_command_name (argv : option (list string))
    (settings : option loc) (s s1 s' : State Settings) (l : loc)
    (cmds : gmap string (Instance Settings)) (prog flag cmdname : string)
    (flags rest : list string) (cmd : Instance Settings) (r : result unit) :
  resolve_settings env settings s = (Ok l, s1) →
  _get_commands_dict env (mem s1) l (inside_project env) = Ok cmds →
  default (sys_argv env) argv = prog :: flags ++ flag :: cmdname :: rest →
  Forall is_flag flags →
  is_flag flag →
  startswith cmdname "-" = false →
  cmdname ≠ "" →
  cmds !! cmdname = Some cmd →
  execute env argv settings s = (r, s') →
  ∃ more,
    log s' = log s1 ++ setup_log l cmdname cmd (flags ++ cmdname :: rest) ++ more.
Proof.
  intros Hres Hcmds Hargv Hflags Hflag Hcmdflag Hname Hcmd Hexec.
  rewrite (execute_dispatch env argv settings s s1 l Hres), Hargv in Hexec.
  apply (selected_log l _ (prog :: flags ++ cmdname :: rest) cmdname cmds cmd)
    in Hexec; try done.
  unfold _pop_command_name.
  change (drop 1 (prog :: flags ++ flag :: cmdname :: rest))
    with (flags ++ flag :: cmdname :: rest).
  rewrite pop_loop_flags by done. cbn [pop_loop].
  unfold is_flag in Hflag. rewrite Hflag, Hcmdflag. cbn [negb]. f_equal.
  replace (S (0 + length flags)) with (length (prog :: flags)) by done.
  change (prog :: flags ++ flag :: cmdname :: rest)
    with ((prog :: flags) ++ flag :: cmdname :: rest).
  by rewrite delete_middle.
Qed.

(** ** The exit status *)

(** When [parse_args], [process_options] and [run] return and the two
    methods leave [self.exitcode] alone, the exit status is the [exitcode]
    the class defines. *)
Theorem default_exit_status (argv : option (list string)) (settings : option loc)
    (s s1 : State Settings) (l : loc) (cmds : gmap string (Instance Settings))
    (cmdname : string) (argv' : list string) (cmd : Instance Settings)
    (opts : Opts) (args : list string) (m3 m5 : Mem Settings) :
  resolve_settings env settings s = (Ok l, s1) →
  _get_commands_dict env (mem s1) l (inside_project env) = Ok cmds →
  _pop_command_name (default (sys_argv env) argv) = (Some cmdname, argv') →
  cmdname ≠ "" →
  cmds !! cmdname = Some cmd →
  p_parse_args (OptionParser env) (inst_class cmd) (drop 1 argv') = Ok (opts, args) →
  process_options (inst_class cmd) args opts (mem (prepared l cmdname cmd s1))
  = (Ok tt, m3) →
  cmd_exitcode m3 = cmd_exitcode (mem (prepared l cmdname cmd s1)) →
  run (inst_class cmd) args opts
      (set_cmd (cmd_settings m3) (Some {| cp_settings := l |}) (cmd_exitcode m3) m3)
  = (Ok tt, m5) →
  cmd_exitcode m5 = cmd_exitcode m3 →
  fst (execute env argv settings s) = Raise (SystemExit (exitcode (inst_class cmd))).
Proof.
  intros Hres Hcmds Hpop Hname Hcmd Hparse Hpo Hcode3 Hrun Hcode5.
  rewrite (execute_dispatch env argv settings s s1 l Hres).
  rewrite (dispatch_selected env l _ argv' (Some cmdname) cmds cmd s1);
    [|done|done| |done].
  2: { simpl. by destruct (String.eqb_spec cmdname ""). }
  rewrite run_prepared_spec. cbv zeta. simpl str. rewrite Hparse, Hpo.
  unfold ready. simpl mem. rewrite Hrun. simpl. by rewrite Hcode5, Hcode3.
Qed.

End MoreDispatch.

(** ** The further properties on the small installation *)

(** A plugin command that requires a project; in [plugin_env] it is
    registered as [deploy], and another plugin takes the name of the
    built-in [crawl]. *)
Definition deploy_class : PyClass Dict :=
  command 8 "myplugin.deploy" true returns returns.

Definition plugin_env : Env Dict :=
  installation builtin_modules []
    [ {| ep_name := "deploy"; ep_load := ObjClass deploy_class |};
      {| ep_name := "crawl"; ep_load := ObjClass plugin_class |} ].

Lemma pop_command_first_crawl :
  _pop_command_name ["scrapy"; "crawl"; "-o"; "out.json"]
  = (Some "crawl", ["crawl"; "-o"; "out.json"])
  ∧ drop 1 (snd (_pop_command_name ["scrapy"; "crawl"; "-o"; "out.json"]))
    = ["-o"; "out.json"].
Proof. apply (pop_command_first "scrapy" "crawl" ["-o"; "out.json"]). reflexivity. Defined.

Lemma pop_command_after_flags_crawl :
  _pop_command_name ["scrapy"; "--nolog"; "-L"; "crawl"; "quotes"]
  = (Some "crawl", ["scrapy"; "--nolog"; "crawl"; "quotes"]).
Proof.
  apply (pop_command_after_flags "scrapy" "-L" "crawl" ["--nolog"] ["quotes"]);
    [by repeat constructor|reflexivity|reflexivity].
Defined.

Lemma module_command_names_crawl :
  has_char "." "crawl" = false
  ∧ "crawl" = last_component (cls_module (inst_class (instantiate crawl_class))).
Proof.
  apply (module_command_names plain_env "scrapy.commands" true "crawl"
           (instantiate crawl_class)).
  vm_compute. reflexivity.
Defined.

(** Outside a project: the plugin that requires a project is registered,
    and the plugin named [crawl] takes the name of the built-in command. *)
Lemma entry_point_commands_kept_outside :
  requires_project deploy_class = true
  ∧ ∃ cmds,
      _get_commands_dict plugin_env fresh_mem 0%nat false = Ok cmds
      ∧ cmds !! "deploy" = Some (instantiate deploy_class)
      ∧ cmds !! "crawl" = Some (instantiate plugin_class).
Proof.
  split; [reflexivity|].
  destruct (entry_point_commands_kept plugin_env fresh_mem 0%nat false)
    as (cmds & Hcmds & Hkept).
  - repeat constructor.
  - vm_compute. repeat constructor; set_unfold; intuition discriminate.
  - reflexivity.
  - exists cmds. split; [exact Hcmds|]. split.
    + destruct (Hkept {| ep_name := "deploy"; ep_load := ObjClass deploy_class |})
        as (obj & [= <-] & Hlookup); [left|exact Hlookup].
    + destruct (Hkept {| ep_name := "crawl"; ep_load := ObjClass plugin_class |})
        as (obj & [= <-] & Hlookup); [right; left|exact Hlookup].
Defined.

Lemma resolve_settings_reuse_fresh :
  ∃ s2, resolve_settings plain_env None resolved_state = (Ok 0%nat, s2)
        ∧ mem s2 = mem resolved_state.
Proof.
  apply (resolve_settings_reuse plain_env None fresh_state resolved_state 0%nat).
  vm_compute. reflexivity.
Defined.

(** [scrapy -h]: the listing. *)
Lemma flags_only_lists_commands_help :
  execute plain_env (Some ["scrapy"; "-h"]) None fresh_state
  = (Raise (SystemExit 0),
     {| mem := set_stdout (stdout (mem resolved_state)
                           ++ listing plain_env (mem resolved_state) 0%nat true
                                      plain_registry)
                          (mem resolved_state);
        log := log resolved_state |}).
Proof.
  apply (flags_only_lists_commands plain_env (Some ["scrapy"; "-h"]) None fresh_state
           resolved_state 0%nat plain_registry).
  - vm_compute. reflexivity.
  - vm_compute. reflexivity.
  - by repeat constructor.
Defined.

Lemma empty_name_lists_commands_quoted :
  execute plain_env (Some ["scrapy"; "--nolog"; ""; "crawl"]) None fresh_state
  = (Raise (SystemExit 0),
     {| mem := set_stdout (stdout (mem resolved_state)
                           ++ listing plain_env (mem resolved_state) 0%nat true
                                      plain_registry)
                          (mem resolved_state);
        log := log resolved_state |}).
Proof.
  apply (empty_name_lists_commands plain_env
           (Some ["scrapy"; "--nolog"; ""; "crawl"]) None fresh_state
           resolved_state 0%nat plain_registry "scrapy" ["--nolog"] ["crawl"]).
  - vm_compute. reflexivity.
  - vm_compute. reflexivity.
  - reflexivity.
  - by repeat constructor.
Defined.

Lemma unknown_command_message_deploy :
  execute plain_env (Some ["scrapy"; "deploy"]) None fresh_state
  = (Raise (SystemExit 2),
     {| mem := set_stdout
                 (stdout (mem resolved_state)
                  ++ [header_line plain_env (mem resolved_state) 0%nat true;
                      "Unknown command: " +:+ "deploy" +:+ nl;
                      "Use " +:+ dq +:+ "scrapy" +:+ dq +:+ " to see available commands"])
                 (mem resolved_state);
        log := log resolved_state |}).
Proof.
  apply (unknown_command_message plain_env (Some ["scrapy"; "deploy"]) None
           fresh_state resolved_state 0%nat plain_registry "deploy" ["deploy"]).
  - vm_compute. reflexivity.
  - vm_compute. reflexivity.
  - reflexivity.
  - discriminate.
  - vm_compute. reflexivity.
Defined.

Lemma parser_gets_arguments_crawl :
  ∃ more,
    log (snd (execute plain_env (Some ["scrapy"; "crawl"; "quotes"]) None fresh_state))
    = log resolved_state
      ++ setup_log 0%nat "crawl" (instantiate crawl_class) ["quotes"] ++ more.
Proof.
  apply (parser_gets_arguments plain_env (Some ["scrapy"; "crawl"; "quotes"]) None
           fresh_state resolved_state
           (snd (execute plain_env (Some ["scrapy"; "crawl"; "quotes"]) None fresh_state))
           0%nat plain_registry "scrapy" "crawl" ["quotes"] (instantiate crawl_class)
           (fst (execute plain_env (Some ["scrapy"; "crawl"; "quotes"]) None fresh_state))).
  - vm_compute. reflexivity.
  - vm_compute. reflexivity.
  - reflexivity.
  - reflexivity.
  - discriminate.
  - vm_compute. reflexivity.
  - apply surjective_pairing.
Defined.

Lemma parser_gets_command_name_crawl :
  ∃ more,
    log (snd (execute plain_env (Some ["scrapy"; "--nolog"; "-L"; "crawl"; "quotes"])
                      None fresh_state))
    = log resolved_state
      ++ setup_log 0%nat "crawl" (instantiate crawl_class)
                   ["--nolog"; "crawl"; "quotes"] ++ more.
Proof.
  apply (parser_gets_command_name plain_env
           (Some ["scrapy"; "--nolog"; "-L"; "crawl"; "quotes"]) None
           fresh_state resolved_state
           (snd (execute plain_env (Some ["scrapy"; "--nolog"; "-L"; "crawl"; "quotes"])
                         None fresh_state))
           0%nat plain_registry "scrapy" "-L" "crawl" ["--nolog"] ["quotes"]
           (instantiate crawl_class)
           (fst (execute plain_env (Some ["scrapy"; "--nolog"; "-L"; "crawl"; "quotes"])
                         None fresh_state))).
  - vm_compute. reflexivity.
  - vm_compute. reflexivity.
  - reflexivity.
  - by repeat constructor.
  - reflexivity.
  - reflexivity.
  - discriminate.
  - vm_compute. reflexivity.
  - apply surjective_pairing.
Defined.

Lemma default_exit_status_version :
  fst (execute plain_env (Some ["scrapy"; "version"]) None fresh_state)
  = Raise (SystemExit (exitcode (inst_class (instantiate version_class)))).
Proof.
  eapply (default_exit_status plain_env (Some ["scrapy"; "version"]) None
            fresh_state resolved_state 0%nat plain_registry "version" ["version"]
            (instantiate version_class) {| profile := None; other_opts := [] |} []).
  - vm_compute. reflexivity.
  - vm_compute. reflexivity.
  - reflexivity.
  - discriminate.
  - vm_compute. reflexivity.
  - reflexivity.
  - reflexivity.
  - reflexivity.
  - reflexivity.
  - reflexivity.
Defined.
